(** * CSS selector builder of [src/05-objects-tasks.js]

    A shallow embedding of [Selector], [Builder] and the [cssSelectorBuilder]
    facade, and the properties of the builder protocol proved on it.

    JavaScript objects are mutable and passed by reference: a [Builder] lives
    in a store and is known to its clients by its address.  A method that
    throws keeps every assignment it made before the [throw], so a method is
    a function from the object's state to an outcome (a value or an exception)
    together with the state it leaves behind. *)

From Stdlib Require Import ZArith String List Lia Bool.
From stdpp Require Import base tactics option list strings.

Local Open Scope Z_scope.

(** ** Exceptions and outcomes *)

(** [Error(message)]: an exception is known by its message. *)
Inductive exn : Type :=
  | Error (message : string).

Definition orderMessage : string :=
  "Selector parts should be arranged in the following order: element, id, class, attribute, pseudo-class, pseudo-element".

Definition occurrenceMessage : string :=
  "Element, id and pseudo-element should not occur more then one time inside the selector".

Definition OrderViolation : exn := Error orderMessage.
Definition DuplicateSingleton : exn := Error occurrenceMessage.

Inductive res (A : Type) : Type :=
  | Ret (a : A)
  | Throw (e : exn).
Arguments Ret {A} a.
Arguments Throw {A} e.

(** ** JavaScript values stored in a selector's properties *)

Inductive value : Type :=
  | VUndefined
  | VNull
  | VStr (s : string)
  | VArr (l : list string)
  | VFun.

(** ToBoolean: [undefined], [null] and the empty string are falsy; arrays
    (also empty ones) and functions are truthy. *)
Definition truthy (v : value) : bool :=
  match v with
  | VUndefined | VNull => false
  | VStr s => negb (String.eqb s "")
  | VArr _ | VFun => true
  end.

(** A nullable string property: [null] or a string. *)
Definition ofNullable (o : option string) : value :=
  match o with
  | None => VNull
  | Some s => VStr s
  end.

(** ** Selector *)

Module Selector.

Record t : Type := mk {
  element : option string;
  id : option string;
  classes : list string;
  attributes : list string;
  pseudoClasses : list string;
  pseudoElement : option string
}.

(** [new Selector()] *)
Definition new : t :=
  {| element := None; id := None; classes := []; attributes := [];
     pseudoClasses := []; pseudoElement := None |}.

Definition set_element (v : option string) (s : t) : t :=
  {| element := v; id := id s; classes := classes s;
     attributes := attributes s; pseudoClasses := pseudoClasses s;
     pseudoElement := pseudoElement s |}.

Definition set_id (v : option string) (s : t) : t :=
  {| element := element s; id := v; classes := classes s;
     attributes := attributes s; pseudoClasses := pseudoClasses s;
     pseudoElement := pseudoElement s |}.

Definition set_classes (v : list string) (s : t) : t :=
  {| element := element s; id := id s; classes := v;
     attributes := attributes s; pseudoClasses := pseudoClasses s;
     pseudoElement := pseudoElement s |}.

Definition set_attributes (v : list string) (s : t) : t :=
  {| element := element s; id := id s; classes := classes s;
     attributes := v; pseudoClasses := pseudoClasses s;
     pseudoElement := pseudoElement s |}.

Definition set_pseudoClasses (v : list string) (s : t) : t :=
  {| element := element s; id := id s; classes := classes s;
     attributes := attributes s; pseudoClasses := v;
     pseudoElement := pseudoElement s |}.

Definition set_pseudoElement (v : option string) (s : t) : t :=
  {| element := element s; id := id s; classes := classes s;
     attributes := attributes s; pseudoClasses := pseudoClasses s;
     pseudoElement := v |}.

(** [this.current[prop]]: the own properties of a selector object. *)
Definition get (prop : string) (s : t) : value :=
  if String.eqb prop "element" then ofNullable (element s)
  else if String.eqb prop "id" then ofNullable (id s)
  else if String.eqb prop "classes" then VArr (classes s)
  else if String.eqb prop "attributes" then VArr (attributes s)
  else if String.eqb prop "pseudoClasses" then VArr (pseudoClasses s)
  else if String.eqb prop "pseudoElement" then ofNullable (pseudoElement s)
  else if String.eqb prop "stringify" then VFun
  else VUndefined.

(** [`${x}`] of a nullable string that was tested truthy. *)
Definition text (o : option string) : string :=
  match o with
  | Some s => s
  | None => "null"
  end.

(** [arr.join(sep)] on an array of strings. *)
Definition join (sep : string) (arr : list string) : string :=
  String.concat sep arr.

(** [arr.length] used as a condition. *)
Definition nonempty (arr : list string) : bool :=
  negb (Nat.eqb (length arr) 0).

(** The text [stringify] accumulates in [result]. *)
Definition render (s : t) : string :=
  let result := "" in
  let result :=
    if truthy (ofNullable (element s)) then result +:+ text (element s)
    else result in
  let result :=
    if truthy (ofNullable (id s)) then result +:+ ("#" +:+ text (id s))
    else result in
  let result :=
    if nonempty (classes s)
    then result +:+ ("." +:+ join "." (classes s)) else result in
  let result :=
    if nonempty (attributes s)
    then result +:+ ("[" +:+ join "][" (attributes s) +:+ "]") else result in
  let result :=
    if nonempty (pseudoClasses s)
    then result +:+ (":" +:+ join ":" (pseudoClasses s)) else result in
  let result :=
    if truthy (ofNullable (pseudoElement s))
    then result +:+ ("::" +:+ text (pseudoElement s)) else result in
  result.

(** [this.stringify()]: the text, and the selector with every property
    cleared. *)
Definition stringify (s : t) : string * t :=
  let result := render s in
  let s := set_element None s in
  let s := set_id None s in
  let s := set_classes [] s in
  let s := set_attributes [] s in
  let s := set_pseudoClasses [] s in
  let s := set_pseudoElement None s in
  (result, s).

End Selector.

(** ** Builder *)

Module Builder.

Record t : Type := mk {
  order : Z;
  current : Selector.t;
  combined : string
}.

(** [new Builder()] *)
Definition new : t :=
  {| order := -1; current := Selector.new; combined := "" |}.

Definition set_order (v : Z) (b : t) : t :=
  {| order := v; current := current b; combined := combined b |}.

Definition set_current (v : Selector.t) (b : t) : t :=
  {| order := order b; current := v; combined := combined b |}.

Definition set_combined (v : string) (b : t) : t :=
  {| order := order b; current := current b; combined := v |}.

(** A method body: it runs on the state of [this] and leaves a state
    behind, whether it returns or throws. *)
Definition M (A : Type) : Type := t -> res A * t.

Definition ret {A} (a : A) : M A := fun b => (Ret a, b).

Definition bind {A B} (m : M A) (k : A -> M B) : M B :=
  fun b =>
    match m b with
    | (Ret a, b') => k a b'
    | (Throw e, b') => (Throw e, b')
    end.

Definition throw {A} (e : exn) : M A := fun b => (Throw e, b).

Definition gets {A} (f : t -> A) : M A := fun b => (Ret (f b), b).

Definition modify (f : t -> t) : M unit := fun b => (Ret tt, f b).

Definition when (c : bool) (m : M unit) : M unit :=
  if c then m else ret tt.

End Builder.

#[global] Instance builder_ret : MRet Builder.M := @Builder.ret.
#[global] Instance builder_bind : MBind Builder.M :=
  fun A B k m => Builder.bind m k.

Module BuilderMethods.
Import Builder.

Definition throwOrderError : M unit :=
  modify (set_order (-1));;
  modify (set_current Selector.new);;
  throw (Error orderMessage).

Definition checkPropertyExistance (prop : string) : M unit :=
  c ← gets current;
  if truthy (Selector.get prop c) then
    modify (set_order (-1));;
    modify (set_current Selector.new);;
    throw (Error occurrenceMessage)
  else mret tt.

Definition stringify : M string :=
  c ← gets combined;
  result ← (if truthy (VStr c) then mret c
            else fun b =>
                   let '(r, s) := Selector.stringify (current b) in
                   (Ret r, set_current s b));
  modify (set_order (-1));;
  modify (set_combined "");;
  mret result.

Definition element (value : string) : M unit :=
  let weight := 0 in
  o ← gets order;
  when (o >? weight) throwOrderError;;
  checkPropertyExistance "element";;
  modify (fun b => set_current (Selector.set_element (Some value) (current b)) b);;
  modify (set_order weight).

Definition id (value : string) : M unit :=
  let weight := 1 in
  o ← gets order;
  when (o >? weight) throwOrderError;;
  checkPropertyExistance "id";;
  modify (fun b => set_current (Selector.set_id (Some value) (current b)) b);;
  modify (set_order weight).

Definition class (value : string) : M unit :=
  let weight := 2 in
  o ← gets order;
  when (o >? weight) throwOrderError;;
  modify (fun b =>
    set_current
      (Selector.set_classes (Selector.classes (current b) ++ [value])
         (current b)) b);;
  modify (set_order weight).

Definition attr (value : string) : M unit :=
  let weight := 3 in
  o ← gets order;
  when (o >? weight) throwOrderError;;
  modify (fun b =>
    set_current
      (Selector.set_attributes (Selector.attributes (current b) ++ [value])
         (current b)) b);;
  modify (set_order weight).

Definition pseudoClass (value : string) : M unit :=
  let weight := 4 in
  o ← gets order;
  when (o >? weight) throwOrderError;;
  modify (fun b =>
    set_current
      (Selector.set_pseudoClasses
         (Selector.pseudoClasses (current b) ++ [value]) (current b)) b);;
  modify (set_order weight).

Definition pseudoElement (value : string) : M unit :=
  let weight := 5 in
  o ← gets order;
  when (o >? weight) throwOrderError;;
  checkPropertyExistance "pseudoElement";;
  modify (fun b =>
    set_current (Selector.set_pseudoElement (Some value) (current b)) b);;
  modify (set_order weight).

End BuilderMethods.

(** ** Part kinds

    The six part-adding methods share one shape; [addPart] selects the method
    by the kind of part, [weight] is the constant each method compares
    [this.order] with. *)

Inductive Kind : Type :=
  | KElement | KId | KClass | KAttr | KPseudoClass | KPseudoElement.

Definition weight (k : Kind) : Z :=
  match k with
  | KElement => 0
  | KId => 1
  | KClass => 2
  | KAttr => 3
  | KPseudoClass => 4
  | KPseudoElement => 5
  end.

Definition addPart (k : Kind) (v : string) : Builder.M unit :=
  match k with
  | KElement => BuilderMethods.element v
  | KId => BuilderMethods.id v
  | KClass => BuilderMethods.class v
  | KAttr => BuilderMethods.attr v
  | KPseudoClass => BuilderMethods.pseudoClass v
  | KPseudoElement => BuilderMethods.pseudoElement v
  end.

#[global] Instance Kind_eq_dec : EqDecision Kind.
Proof. solve_decision. Defined.

Definition part : Type := Kind * string.

(** [this.m1(v1).m2(v2)...] on one builder: the calls run in sequence and the
    first exception ends the chain. *)
Fixpoint addParts (cs : list part) : Builder.M unit :=
  match cs with
  | [] => mret tt
  | (k, v) :: cs' => addPart k v;; addParts cs'
  end.

(** ** The store of builder objects *)

Abbreviation ref := nat (only parsing).
Abbreviation store := (list Builder.t) (only parsing).

(** A computation on the store; [None] is a call through an address that
    holds no object, which no client of the facade can produce. *)
Definition H (A : Type) : Type := store -> option (res A * store).

Definition retH {A} (a : A) : H A := fun h => Some (Ret a, h).

Definition bindH {A B} (m : H A) (k : A -> H B) : H B :=
  fun h =>
    match m h with
    | Some (Ret a, h') => k a h'
    | Some (Throw e, h') => Some (Throw e, h')
    | None => None
    end.

#[global] Instance store_ret : MRet H := @retH.
#[global] Instance store_bind : MBind H := fun A B k m => bindH m k.

(** [new Builder()] *)
Definition alloc : H ref :=
  fun h => Some (Ret (length h), h ++ [Builder.new]).

(** [this.m(...)] for a method body [m]. *)
Definition invoke {A} (this : ref) (m : Builder.M A) : H A :=
  fun h =>
    match h !! this with
    | Some b => let '(r, b') := m b in Some (r, <[this := b']> h)
    | None => None
    end.

(** A part-adding method ends in [return this]. *)
Definition method (this : ref) (m : Builder.M unit) : H ref :=
  invoke this m;; mret this.

Definition stringify (this : ref) : H string :=
  invoke this BuilderMethods.stringify.

(** [Builder.prototype.combine]: the template literal evaluates
    [selector1.stringify()] first, then [selector2.stringify()], and the
    text is assigned to [this.combined]. *)
Definition combine (this selector1 : ref) (combinator : string)
    (selector2 : ref) : H ref :=
  s1 ← stringify selector1;
  s2 ← stringify selector2;
  invoke this
    (Builder.modify
       (Builder.set_combined (s1 +:+ " " +:+ combinator +:+ " " +:+ s2)));;
  mret this.

(** [b.m1(v1).m2(v2)...] through the reference [b]. *)
Fixpoint chain (this : ref) (cs : list part) : H ref :=
  match cs with
  | [] => mret this
  | (k, v) :: cs' => this' ← method this (addPart k v); chain this' cs'
  end.

(** ** The facade *)

Module cssSelectorBuilder.

Definition element (value : string) : H ref :=
  this ← alloc; method this (BuilderMethods.element value).

Definition id (value : string) : H ref :=
  this ← alloc; method this (BuilderMethods.id value).

Definition class (value : string) : H ref :=
  this ← alloc; method this (BuilderMethods.class value).

Definition attr (value : string) : H ref :=
  this ← alloc; method this (BuilderMethods.attr value).

Definition pseudoClass (value : string) : H ref :=
  this ← alloc; method this (BuilderMethods.pseudoClass value).

Definition pseudoElement (value : string) : H ref :=
  this ← alloc; method this (BuilderMethods.pseudoElement value).

Definition combine (selector1 : ref) (combinator : string)
    (selector2 : ref) : H ref :=
  this ← alloc; combine this selector1 combinator selector2.

End cssSelectorBuilder.

(** The factory function of a kind. *)
Definition factory (k : Kind) (v : string) : H ref :=
  match k with
  | KElement => cssSelectorBuilder.element v
  | KId => cssSelectorBuilder.id v
  | KClass => cssSelectorBuilder.class v
  | KAttr => cssSelectorBuilder.attr v
  | KPseudoClass => cssSelectorBuilder.pseudoClass v
  | KPseudoElement => cssSelectorBuilder.pseudoElement v
  end.

(** [cssSelectorBuilder.m1(v1).m2(v2)....stringify()] *)
Definition build (first : part) (rest : list part) : H string :=
  this ← factory first.1 first.2;
  this ← chain this rest;
  stringify this.

(** ** Vocabulary of the properties *)

(** The part kinds a selector holds once. *)
Definition singleton (k : Kind) : bool :=
  match k with
  | KElement | KId | KPseudoElement => true
  | KClass | KAttr | KPseudoClass => false
  end.

(** The property of the selector a part kind is stored in. *)
Definition propOf (k : Kind) : string :=
  match k with
  | KElement => "element"
  | KId => "id"
  | KClass => "classes"
  | KAttr => "attributes"
  | KPseudoClass => "pseudoClasses"
  | KPseudoElement => "pseudoElement"
  end.

(** The assignment or [push] a successful part-adding call performs. *)
Definition store_part (k : Kind) (v : string) (s : Selector.t) : Selector.t :=
  match k with
  | KElement => Selector.set_element (Some v) s
  | KId => Selector.set_id (Some v) s
  | KClass => Selector.set_classes (Selector.classes s ++ [v]) s
  | KAttr => Selector.set_attributes (Selector.attributes s ++ [v]) s
  | KPseudoClass =>
      Selector.set_pseudoClasses (Selector.pseudoClasses s ++ [v]) s
  | KPseudoElement => Selector.set_pseudoElement (Some v) s
  end.

(** The state both error paths leave: rank -1 and a new selector; the
    combined text is not assigned. *)
Definition reset (b : Builder.t) : Builder.t :=
  Builder.set_current Selector.new (Builder.set_order (-1) b).

(** The state a successful part-adding call leaves. *)
Definition added (k : Kind) (v : string) (b : Builder.t) : Builder.t :=
  Builder.set_order (weight k)
    (Builder.set_current (store_part k v (Builder.current b)) b).

(** What [this.stringify()] returns in state [b]. *)
Definition rendered (b : Builder.t) : string :=
  match (BuilderMethods.stringify b).1 with
  | Ret s => s
  | Throw _ => ""
  end.

(** The values of kind [k] in a chain, in call order. *)
Fixpoint values (k : Kind) (cs : list part) : list string :=
  match cs with
  | [] => []
  | (k', v) :: cs' =>
      if decide (k' = k) then v :: values k cs' else values k cs'
  end.

(** The ranks of a chain never decrease, starting from rank [prev]. *)
Fixpoint nondecreasing (prev : Z) (cs : list part) : bool :=
  match cs with
  | [] => true
  | (k, _) :: cs' => (prev <=? weight k) && nondecreasing (weight k) cs'
  end.

(** Each of element, id and pseudo-element occurs at most once. *)
Definition singletons_once (cs : list part) : bool :=
  forallb (fun k => Nat.leb (length (values k cs)) 1)
    [KElement; KId; KPseudoElement].

(** The id and the pseudo-element values are non-empty strings. *)
Definition marked_nonempty (cs : list part) : bool :=
  forallb (fun v => negb (String.eqb v "")) (values KId cs) &&
  forallb (fun v => negb (String.eqb v "")) (values KPseudoElement cs).

(** Concatenation of a list of strings. *)
Definition concat_all (l : list string) : string :=
  fold_right String.append "" l.

(** The canonical syntax of one part. *)
Definition canonical (k : Kind) (v : string) : string :=
  match k with
  | KElement => v
  | KId => "#" +:+ v
  | KClass => "." +:+ v
  | KAttr => "[" +:+ v +:+ "]"
  | KPseudoClass => ":" +:+ v
  | KPseudoElement => "::" +:+ v
  end.

(** The text of one group: the canonical syntax of each of its values, in
    insertion order; an absent group is the empty string. *)
Definition group (k : Kind) (cs : list part) : string :=
  concat_all (map (canonical k) (values k cs)).

(** The rendering the specification describes: the groups in the fixed order
    element, id, classes, attributes, pseudo-classes, pseudo-element. *)
Definition spec_text (cs : list part) : string :=
  group KElement cs +:+ group KId cs +:+ group KClass cs +:+
  group KAttr cs +:+ group KPseudoClass cs +:+ group KPseudoElement cs.

(** The selector after the assignments and pushes of a whole chain. *)
Definition store_parts (cs : list part) (s : Selector.t) : Selector.t :=
  fold_left (fun s (p : part) => store_part p.1 p.2 s) cs s.

(** The rank a chain of successful calls leaves. *)
Fixpoint final_order (o : Z) (cs : list part) : Z :=
  match cs with
  | [] => o
  | (k, _) :: cs' => final_order (weight k) cs'
  end.

(** The state [this.stringify()] leaves. *)
Definition consumed (b : Builder.t) : Builder.t :=
  (BuilderMethods.stringify b).2.




(** The six kinds, by rank. *)
Definition all_kinds : list Kind :=
  [KElement; KId; KClass; KAttr; KPseudoClass; KPseudoElement].

(** The property of kind [k] is as [new Selector()] leaves it: [null] or the
    empty array. *)
Definition untouched (k : Kind) (s : Selector.t) : bool :=
  match Selector.get (propOf k) s with
  | VNull | VArr [] => true
  | _ => false
  end.

(** A builder that holds no combined text and nothing of a kind above its
    rank. *)
Definition tidy (b : Builder.t) : bool :=
  String.eqb (Builder.combined b) "" &&
  forallb (fun k => (weight k <=? Builder.order b) ||
                    untouched k (Builder.current b)) all_kinds.

(** Every element, id and pseudo-element value of a chain is a non-empty
    string. *)
Definition singletons_nonempty (cs : list part) : bool :=
  forallb (fun p : part => negb (singleton p.1) || negb (String.eqb p.2 ""))
    cs.

(** ** The part-adding methods, case by case *)

Ltac unfold_methods :=
  unfold addPart, BuilderMethods.element, BuilderMethods.id,
    BuilderMethods.class, BuilderMethods.attr, BuilderMethods.pseudoClass,
    BuilderMethods.pseudoElement, BuilderMethods.stringify,
    BuilderMethods.throwOrderError, BuilderMethods.checkPropertyExistance,
    mbind, builder_bind, mret, builder_ret, Builder.bind, Builder.gets,
    Builder.when, Builder.modify, Builder.throw, Builder.ret;
  cbn [Builder.order Builder.current Builder.combined weight fst snd].

Lemma addPart_cases (k : Kind) (v : string) (b : Builder.t) :
  addPart k v b =
    if Builder.order b >? weight k then (Throw OrderViolation, reset b)
    else if singleton k && truthy (Selector.get (propOf k) (Builder.current b))
    then (Throw DuplicateSingleton, reset b)
    else (Ret tt, added k v b).
Proof.
  destruct b as [o [e i cl at_ pc pe] c].
  destruct k; unfold_methods; destruct (o >? _); try reflexivity.
  - destruct e as [s|]; [destruct s|]; reflexivity.
  - destruct i as [s|]; [destruct s|]; reflexivity.
  - destruct pe as [s|]; [destruct s|]; reflexivity.
Qed.

Lemma stringify_cases (b : Builder.t) :
  BuilderMethods.stringify b =
    if truthy (VStr (Builder.combined b))
    then (Ret (Builder.combined b),
          Builder.set_combined "" (Builder.set_order (-1) b))
    else (Ret (Selector.render (Builder.current b)), Builder.new).
Proof.
  destruct b as [o s c]. unfold_methods.
  destruct (truthy (VStr c)); reflexivity.
Qed.

(** ** Strings *)

Lemma append_nil_r (s : string) : s +:+ "" = s.
Proof.
  induction s as [|a s IH]; [reflexivity|].
  change (String a (s +:+ "") = String a s). by rewrite IH.
Qed.

Lemma append_assoc (s1 s2 s3 : string) :
  (s1 +:+ s2) +:+ s3 = s1 +:+ (s2 +:+ s3).
Proof.
  induction s1 as [|a s1 IH]; [reflexivity|].
  change (String a ((s1 +:+ s2) +:+ s3) = String a (s1 +:+ (s2 +:+ s3))).
  by rewrite IH.
Qed.

Lemma nonempty_cons (x : string) (l : list string) :
  Selector.nonempty (x :: l) = true.
Proof. reflexivity. Qed.

(** [join] with a separator that closes one item and opens the next. *)
Lemma join_wrapped (op cl : string) (l : list string) :
  l <> [] ->
  op +:+ Selector.join (cl +:+ op) l +:+ cl =
  concat_all (map (fun v => op +:+ v +:+ cl) l).
Proof.
  induction l as [|x l IH]; [done|]. intros _.
  destruct l as [|y l].
  - cbn [map concat_all fold_right Selector.join String.concat].
    by rewrite !append_assoc, append_nil_r.
  - change (Selector.join (cl +:+ op) (x :: y :: l))
      with (x +:+ (cl +:+ op) +:+ Selector.join (cl +:+ op) (y :: l)).
    change (concat_all (map (fun v => op +:+ v +:+ cl) (x :: y :: l)))
      with ((op +:+ x +:+ cl) +:+
            concat_all (map (fun v => op +:+ v +:+ cl) (y :: l))).
    rewrite <- IH by done. by rewrite !append_assoc.
Qed.

Lemma join_prefixed (op : string) (l : list string) :
  l <> [] ->
  op +:+ Selector.join op l = concat_all (map (fun v => op +:+ v) l).
Proof.
  intros Hl. pose proof (join_wrapped op "" l Hl) as E.
  change ("" +:+ op) with op in E. rewrite append_nil_r in E.
  rewrite E. f_equal. apply map_ext. intros v. by rewrite append_nil_r.
Qed.

(** ** The selector a chain accumulates *)

Lemma from_last_cons {A} (d : option A) (x : A) (l : list A) :
  from_option Some d (last (x :: l)) = from_option Some (Some x) (last l).
Proof. rewrite last_cons. by destruct (last l). Qed.

Lemma store_parts_fields (cs : list part) (s : Selector.t) :
  Selector.element (store_parts cs s)
    = from_option Some (Selector.element s) (last (values KElement cs)) /\
  Selector.id (store_parts cs s)
    = from_option Some (Selector.id s) (last (values KId cs)) /\
  Selector.classes (store_parts cs s)
    = Selector.classes s ++ values KClass cs /\
  Selector.attributes (store_parts cs s)
    = Selector.attributes s ++ values KAttr cs /\
  Selector.pseudoClasses (store_parts cs s)
    = Selector.pseudoClasses s ++ values KPseudoClass cs /\
  Selector.pseudoElement (store_parts cs s)
    = from_option Some (Selector.pseudoElement s)
        (last (values KPseudoElement cs)).
Proof.
  revert s. induction cs as [|[k v] cs IH]; intros s.
  - cbn. by rewrite !app_nil_r.
  - change (store_parts ((k, v) :: cs) s)
      with (store_parts cs (store_part k v s)).
    destruct (IH (store_part k v s)) as (He & Hi & Hc & Ha & Hp & Hpe).
    rewrite He, Hi, Hc, Ha, Hp, Hpe.
    destruct k; cbn [values store_part]; repeat case_decide; try done;
      rewrite ?from_last_cons; cbn; rewrite <- ?app_assoc; done.
Qed.

(** ** Rendering, group by group *)

Lemma cond_append (c : bool) (r x : string) :
  (if c then r +:+ x else r) = r +:+ (if c then x else "").
Proof. destruct c; [done | by rewrite append_nil_r]. Qed.

Lemma render_pieces (s : Selector.t) :
  Selector.render s =
    (if truthy (ofNullable (Selector.element s))
     then Selector.text (Selector.element s) else "") +:+
    (if truthy (ofNullable (Selector.id s))
     then "#" +:+ Selector.text (Selector.id s) else "") +:+
    (if Selector.nonempty (Selector.classes s)
     then "." +:+ Selector.join "." (Selector.classes s) else "") +:+
    (if Selector.nonempty (Selector.attributes s)
     then "[" +:+ Selector.join "][" (Selector.attributes s) +:+ "]"
     else "") +:+
    (if Selector.nonempty (Selector.pseudoClasses s)
     then ":" +:+ Selector.join ":" (Selector.pseudoClasses s) else "") +:+
    (if truthy (ofNullable (Selector.pseudoElement s))
     then "::" +:+ Selector.text (Selector.pseudoElement s) else "").
Proof.
  unfold Selector.render. cbv zeta.
  rewrite !cond_append, !append_assoc. reflexivity.
Qed.

Lemma single_piece (mark : string) (vs : list string) :
  (length vs <= 1)%nat ->
  (mark = "" \/ forallb (fun v => negb (String.eqb v "")) vs = true) ->
  (if truthy (ofNullable (from_option Some None (last vs)))
   then mark +:+ Selector.text (from_option Some None (last vs)) else "")
  = concat_all (map (fun v => mark +:+ v) vs).
Proof.
  destruct vs as [|v [|w l]]; cbn [length]; intros Hl Hv; [done| |lia].
  cbn [last from_option ofNullable truthy Selector.text map concat_all
       fold_right].
  rewrite append_nil_r.
  destruct (String.eqb_spec v "") as [->|Hne]; cbn [negb]; [|done].
  destruct Hv as [->|Hv]; [done|]. cbn in Hv. done.
Qed.

Lemma element_piece (vs : list string) :
  (length vs <= 1)%nat ->
  (if truthy (ofNullable (from_option Some None (last vs)))
   then Selector.text (from_option Some None (last vs)) else "")
  = concat_all (map (canonical KElement) vs).
Proof. intros Hl. exact (single_piece "" vs Hl (or_introl eq_refl)). Qed.

Lemma prefixed_piece (op : string) (l : list string) :
  (if Selector.nonempty l then op +:+ Selector.join op l else "")
  = concat_all (map (fun v => op +:+ v) l).
Proof.
  destruct l as [|x l]; [done|].
  rewrite nonempty_cons. by apply join_prefixed.
Qed.

Lemma wrapped_piece (op cl : string) (l : list string) :
  (if Selector.nonempty l
   then op +:+ Selector.join (cl +:+ op) l +:+ cl else "")
  = concat_all (map (fun v => op +:+ v +:+ cl) l).
Proof.
  destruct l as [|x l]; [done|].
  rewrite nonempty_cons. by apply join_wrapped.
Qed.

Lemma singletons_once_spec (cs : list part) :
  singletons_once cs = true ->
  forall k, singleton k = true -> (length (values k cs) <= 1)%nat.
Proof.
  unfold singletons_once. cbn [forallb]. rewrite !andb_true_iff.
  intros (He & Hi & Hp & _) k Hk.
  destruct k; try discriminate Hk; by apply Nat.leb_le.
Qed.

(** A selector that holds the parts of a chain renders as the specification
    describes. *)
Lemma render_store_parts (cs : list part) :
  singletons_once cs = true ->
  marked_nonempty cs = true ->
  Selector.render (store_parts cs Selector.new) = spec_text cs.
Proof.
  intros Honce Hne.
  pose proof (singletons_once_spec cs Honce) as Hlen.
  apply andb_true_iff in Hne as [Hid Hpe].
  destruct (store_parts_fields cs Selector.new)
    as (He & Hi & Hc & Ha & Hp & Hq).
  cbn [Selector.new Selector.element Selector.id Selector.classes
       Selector.attributes Selector.pseudoClasses Selector.pseudoElement
       app] in He, Hi, Hc, Ha, Hp, Hq.
  rewrite render_pieces, He, Hi, Hc, Ha, Hp, Hq.
  unfold spec_text, group.
  rewrite (element_piece (values KElement cs)) by auto.
  rewrite (single_piece "#" (values KId cs)) by auto.
  rewrite (single_piece "::" (values KPseudoElement cs)) by auto.
  rewrite (prefixed_piece "." (values KClass cs)).
  rewrite (prefixed_piece ":" (values KPseudoClass cs)).
  change "][" with ("]" +:+ "[").
  rewrite (wrapped_piece "[" "]" (values KAttr cs)).
  reflexivity.
Qed.

(** ** Chains that succeed *)

Lemma get_store_part_other (k k' : Kind) (v : string) (s : Selector.t) :
  k <> k' ->
  Selector.get (propOf k') (store_part k v s) = Selector.get (propOf k') s.
Proof. destruct k, k'; intros Hk; try done; destruct s; reflexivity. Qed.

Lemma values_cons_length (k k' : Kind) (v : string) (cs : list part) :
  (length (values k' cs) <= length (values k' ((k, v) :: cs)))%nat.
Proof. cbn [values]. case_decide; cbn [length]; lia. Qed.

(** A chain whose ranks never decrease and that supplies no singleton part
    twice, run on a builder that holds none of the chain's singleton parts,
    raises no exception. *)
Lemma addParts_ok (cs : list part) :
  forall b : Builder.t,
    nondecreasing (Builder.order b) cs = true ->
    (forall k, singleton k = true -> (length (values k cs) <= 1)%nat) ->
    (forall k, singleton k = true -> values k cs <> [] ->
       truthy (Selector.get (propOf k) (Builder.current b)) = false) ->
    addParts cs b =
      (Ret tt,
       {| Builder.order := final_order (Builder.order b) cs;
          Builder.current := store_parts cs (Builder.current b);
          Builder.combined := Builder.combined b |}).
Proof.
  induction cs as [|[k v] cs IH]; intros b Hnd Hlen Hfalsy.
  - by destruct b.
  - cbn [nondecreasing] in Hnd. apply andb_true_iff in Hnd as [Hle Hnd].
    apply Z.leb_le in Hle.
    cbn [addParts]. unfold mbind, builder_bind, Builder.bind.
    rewrite addPart_cases.
    assert (Hgt : (Builder.order b >? weight k) = false)
      by (rewrite Z.gtb_ltb; apply Z.ltb_ge; exact Hle).
    rewrite Hgt.
    assert (Hk : singleton k &&
                 truthy (Selector.get (propOf k) (Builder.current b)) = false).
    { destruct (singleton k) eqn:Hs; [|done]. cbn [andb].
      apply Hfalsy; [done|]. cbn [values]. by rewrite decide_True. }
    rewrite Hk.
    rewrite (IH (added k v b)); [reflexivity|done| |].
    + intros k' Hk'. specialize (Hlen k' Hk').
      exact (Nat.le_trans _ _ _ (values_cons_length k k' v cs) Hlen).
    + intros k' Hk' Hne. cbn [added Builder.set_order Builder.set_current
        Builder.current].
      destruct (decide (k = k')) as [<-|Hkk].
      * specialize (Hlen k Hk'). cbn [values] in Hlen.
        rewrite decide_True in Hlen by done.
        destruct (values k cs); [done | cbn in Hlen; lia].
      * rewrite get_store_part_other by done.
        apply Hfalsy; [done|]. cbn [values]. by rewrite decide_False.
Qed.

(** ** Calls through a reference *)

Lemma invoke_at {A} (this : ref) (m : Builder.M A) (h : store)
    (b : Builder.t) :
  h !! this = Some b ->
  invoke this m h = Some ((m b).1, <[this := (m b).2]> h).
Proof. intros Hb. unfold invoke. rewrite Hb. by destruct (m b). Qed.

Lemma lookup_updated (this : ref) (h : store) (b b' : Builder.t) :
  h !! this = Some b -> <[this := b']> h !! this = Some b'.
Proof. intros Hb. apply list_lookup_insert_eq. by eapply lookup_lt_Some. Qed.

(** A chain through a reference is the sequence of its calls on the object
    the reference names. *)
Lemma chain_run (cs : list part) :
  forall (this : ref) (h : store) (b : Builder.t),
    h !! this = Some b ->
    chain this cs h =
      Some (match (addParts cs b).1 with
            | Ret _ => Ret this
            | Throw e => Throw e
            end, <[this := (addParts cs b).2]> h).
Proof.
  induction cs as [|[k v] cs IH]; intros this h b Hb.
  - change (addParts [] b) with (Ret (), b). cbn [fst snd chain].
    by rewrite list_insert_id.
  - cbn [chain addParts].
    unfold method, mbind, store_bind, bindH, builder_bind, Builder.bind.
    rewrite (invoke_at _ _ _ _ Hb).
    destruct (addPart k v b) as [[[]|e] b1]; cbn [fst snd]; [|done].
    unfold mret, store_ret, retH.
    rewrite (IH this _ b1 (lookup_updated _ _ _ _ Hb)).
    by rewrite list_insert_insert_eq.
Qed.

Lemma alloc_lookup (h : store) :
  (h ++ [Builder.new]) !! length h = Some Builder.new.
Proof. by rewrite list_lookup_middle. Qed.

Lemma alloc_update_again (h : store) (b b' : Builder.t) :
  <[length h := b']> (h ++ [b]) = h ++ [b'].
Proof.
  rewrite insert_app_r_alt by lia. by rewrite Nat.sub_diag.
Qed.

Lemma bindH_assoc {A B C} (m : H A) (f : A -> H B) (g : B -> H C)
    (h : store) :
  bindH (bindH m f) g h = bindH m (fun x => bindH (f x) g) h.
Proof. unfold bindH. by destruct (m h) as [[[a|e] h1]|]. Qed.

Lemma alloc_update (h : store) (b : Builder.t) :
  <[length h := b]> (h ++ [Builder.new]) = h ++ [b].
Proof.
  rewrite insert_app_r_alt by lia. by rewrite Nat.sub_diag.
Qed.

(** ** Chains started at the facade *)

Lemma factory_alloc (k : Kind) (v : string) :
  factory k v = (this ← alloc; method this (addPart k v)).
Proof. by destruct k. Qed.

Lemma new_holds_nothing (k : Kind) :
  truthy (Selector.get (propOf k) (Builder.current Builder.new))
  = negb (singleton k).
Proof. by destruct k. Qed.

(** A factory call followed by a chain is the whole chain run on a new
    builder. *)
Lemma build_run (k : Kind) (v : string) (rest : list part) (h : store) :
  build (k, v) rest h =
    match addParts ((k, v) :: rest) Builder.new with
    | (Ret _, b) =>
        Some ((BuilderMethods.stringify b).1,
              h ++ [(BuilderMethods.stringify b).2])
    | (Throw e, b) => Some (Throw e, h ++ [b])
    end.
Proof.
  unfold build. cbn [fst snd]. rewrite factory_alloc.
  unfold mbind, store_bind. rewrite bindH_assoc.
  unfold bindH at 1, alloc. rewrite <- bindH_assoc.
  change (bindH (method (length h) (addPart k v))
            (fun this' => chain this' rest))
    with (chain (length h) ((k, v) :: rest)).
  unfold bindH.
  rewrite (chain_run _ _ _ _ (alloc_lookup h)).
  destruct (addParts ((k, v) :: rest) Builder.new) as [[[]|e] b];
    cbn [fst snd]; rewrite alloc_update; [|done].
  unfold stringify.
  rewrite (invoke_at _ _ _ b) by (by rewrite list_lookup_middle).
  by rewrite alloc_update_again.
Qed.

(** ** Single calls *)

Lemma addPart_order_error (k : Kind) (v : string) (b : Builder.t) :
  weight k < Builder.order b ->
  addPart k v b = (Throw OrderViolation, reset b).
Proof.
  intros Hlt. rewrite addPart_cases.
  assert (Hgt : (Builder.order b >? weight k) = true)
    by (rewrite Z.gtb_ltb; apply Z.ltb_lt; lia).
  by rewrite Hgt.
Qed.

Lemma addPart_returns (k : Kind) (v : string) (b : Builder.t) :
  (addPart k v b).1 = Ret tt ->
  Builder.order b <= weight k /\ addPart k v b = (Ret tt, added k v b).
Proof.
  rewrite addPart_cases.
  destruct (Builder.order b >? weight k) eqn:Hgt; [done|].
  destruct (singleton k && _); [done|]. intros _. split; [|done].
  rewrite Z.gtb_ltb in Hgt. by apply Z.ltb_ge in Hgt.
Qed.

Lemma addPart_raises (k : Kind) (v : string) (b : Builder.t) (e : exn) :
  (addPart k v b).1 = Throw e ->
  (addPart k v b).2 = reset b /\
  (e = OrderViolation \/ e = DuplicateSingleton).
Proof.
  rewrite addPart_cases.
  destruct (Builder.order b >? weight k).
  - cbn [fst snd]. intros [= <-]. auto.
  - destruct (singleton k && _); cbn [fst snd]; [|done].
    intros [= <-]. auto.
Qed.

Lemma reset_fields (b : Builder.t) :
  reset b =
    {| Builder.order := -1;
       Builder.current := Selector.new;
       Builder.combined := Builder.combined b |}.
Proof. reflexivity. Qed.

Lemma weight_nonneg (k : Kind) : 0 <= weight k.
Proof. destruct k; cbn; lia. Qed.

Lemma get_store_part_same (k : Kind) (v : string) (s : Selector.t) :
  singleton k = true ->
  Selector.get (propOf k) (store_part k v s) = VStr v.
Proof. by destruct k. Qed.

Lemma errors_differ : OrderViolation <> DuplicateSingleton.
Proof. discriminate. Qed.

(** ** What a chain does to rank, accumulator and combined text *)

Lemma addParts_cons (k : Kind) (v : string) (cs : list part)
    (b : Builder.t) :
  addParts ((k, v) :: cs) b =
    match addPart k v b with
    | (Ret _, b1) => addParts cs b1
    | (Throw e, b1) => (Throw e, b1)
    end.
Proof.
  cbn [addParts]. unfold mbind, builder_bind, Builder.bind.
  by destruct (addPart k v b) as [[[]|e] b1].
Qed.

Lemma addParts_combined (cs : list part) :
  forall b, Builder.combined (addParts cs b).2 = Builder.combined b.
Proof.
  induction cs as [|[k v] cs IH]; intros b; [done|].
  rewrite addParts_cons, addPart_cases.
  destruct (Builder.order b >? weight k); [done|].
  destruct (singleton k && _); [done|]. by rewrite IH.
Qed.

Lemma addParts_raises (cs : list part) :
  forall b e b',
    addParts cs b = (Throw e, b') ->
    Builder.order b' = -1 /\ Builder.current b' = Selector.new.
Proof.
  induction cs as [|[k v] cs IH]; intros b e b'; [done|].
  rewrite addParts_cons, addPart_cases.
  destruct (Builder.order b >? weight k); [by intros [= <- <-]|].
  destruct (singleton k && _); [by intros [= <- <-]|]. apply IH.
Qed.

Lemma addParts_order (cs : list part) :
  forall b b',
    addParts cs b = (Ret tt, b') ->
    Builder.order b' = final_order (Builder.order b) cs.
Proof.
  induction cs as [|[k v] cs IH]; intros b b'.
  - by intros [= <-].
  - rewrite addParts_cons, addPart_cases.
    destruct (Builder.order b >? weight k); [done|].
    destruct (singleton k && _); [done|].
    intros Hrun. by rewrite (IH _ _ Hrun).
Qed.

Lemma final_order_above (w : Z) (cs : list part) :
  forall o, w < o \/ cs <> [] ->
    Forall (fun p : part => w < weight p.1) cs ->
    w < final_order o cs.
Proof.
  induction cs as [|[k v] cs IH]; intros o Ho Hall; cbn [final_order].
  - by destruct Ho.
  - inversion Hall as [|? ? Hk Hcs]; subst. apply IH; [by left | done].
Qed.

(** A field that is falsy stays falsy while no call of its kind is made. *)
Lemma addParts_keeps_falsy (k : Kind) (cs : list part) :
  singleton k = true ->
  forall b,
    Forall (fun p : part => p.1 <> k) cs ->
    truthy (Selector.get (propOf k) (Builder.current b)) = false ->
    truthy (Selector.get (propOf k) (Builder.current (addParts cs b).2))
    = false.
Proof.
  intros Hk. induction cs as [|[k' v'] cs IH]; intros b Hall Hb; [done|].
  inversion Hall as [|? ? Hk' Hcs]; subst. cbn [fst] in Hk'.
  rewrite addParts_cons, addPart_cases.
  destruct (Builder.order b >? weight k');
    [by rewrite new_holds_nothing, Hk|].
  destruct (singleton k' && _); [by rewrite new_holds_nothing, Hk|].
  apply IH; [done|]. cbn [added Builder.set_order Builder.set_current
    Builder.current]. by rewrite get_store_part_other.
Qed.

(** ** Chains of one repeatable kind *)

Lemma nondecreasing_repeat (k : Kind) (vs : list string) (o : Z) :
  o <= weight k -> nondecreasing o (map (pair k) vs) = true.
Proof.
  revert o. induction vs as [|v vs IH]; intros o Ho; [done|].
  cbn [map nondecreasing]. rewrite IH by lia.
  by rewrite (proj2 (Z.leb_le _ _) Ho).
Qed.

Lemma values_repeat (k k' : Kind) (vs : list string) :
  values k' (map (pair k) vs) = if decide (k = k') then vs else [].
Proof.
  induction vs as [|v vs IH]; cbn [map values].
  - by case_decide.
  - rewrite IH. by case_decide.
Qed.

Lemma concat_all_app (l1 l2 : list string) :
  concat_all (l1 ++ l2) = concat_all l1 +:+ concat_all l2.
Proof.
  induction l1 as [|x l1 IH]; [done|].
  change (concat_all ((x :: l1) ++ l2)) with (x +:+ concat_all (l1 ++ l2)).
  change (concat_all (x :: l1)) with (x +:+ concat_all l1).
  by rewrite IH, append_assoc.
Qed.

Lemma repeat_ok (k : Kind) (vs : list string) (b : Builder.t) :
  singleton k = false ->
  Builder.order b <= weight k ->
  addParts (map (pair k) vs) b =
    (Ret tt,
     {| Builder.order := final_order (Builder.order b) (map (pair k) vs);
        Builder.current := store_parts (map (pair k) vs) (Builder.current b);
        Builder.combined := Builder.combined b |}).
Proof.
  intros Hk Ho. apply addParts_ok.
  - by apply nondecreasing_repeat.
  - intros k' Hk'. rewrite values_repeat.
    case_decide; [congruence | cbn; lia].
  - intros k' Hk'. rewrite values_repeat. case_decide; [congruence | done].
Qed.

(** The rendering of a selector after [vs] were pushed to one of its
    arrays: the values, in insertion order, between the text of what came
    before and the text of the later groups. *)
Lemma render_repeat (k : Kind) (s : Selector.t) :
  singleton k = false ->
  exists pre post : string,
    forall vs : list string,
      Selector.render (store_parts (map (pair k) vs) s)
      = pre +:+ concat_all (map (canonical k) vs) +:+ post.
Proof.
  intros Hk.
  assert (Hf := fun vs => store_parts_fields (map (pair k) vs) s).
  pose (E := if truthy (ofNullable (Selector.element s))
             then Selector.text (Selector.element s) else "").
  pose (I := if truthy (ofNullable (Selector.id s))
             then "#" +:+ Selector.text (Selector.id s) else "").
  pose (C := concat_all (map (canonical KClass) (Selector.classes s))).
  pose (A := concat_all (map (canonical KAttr) (Selector.attributes s))).
  pose (P := concat_all
               (map (canonical KPseudoClass) (Selector.pseudoClasses s))).
  pose (Q := if truthy (ofNullable (Selector.pseudoElement s))
             then "::" +:+ Selector.text (Selector.pseudoElement s) else "").
  destruct k; try discriminate Hk;
    [exists (E +:+ I +:+ C), (A +:+ P +:+ Q)
    |exists (E +:+ I +:+ C +:+ A), (P +:+ Q)
    |exists (E +:+ I +:+ C +:+ A +:+ P), Q];
    intros vs; destruct (Hf vs) as (He & Hi & Hc & Ha & Hp & Hq);
    rewrite !values_repeat in *; repeat case_decide; try done;
    cbn [last from_option] in *; rewrite app_nil_r in *;
    rewrite render_pieces, He, Hi, Hc, Ha, Hp, Hq;
    rewrite (prefixed_piece "."), (prefixed_piece ":");
    change "][" with ("]" +:+ "["); rewrite (wrapped_piece "[" "]");
    change (fun v => "." +:+ v) with (canonical KClass);
    change (fun v => "[" +:+ v +:+ "]") with (canonical KAttr);
    change (fun v => ":" +:+ v) with (canonical KPseudoClass);
    rewrite map_app, concat_all_app; subst E I C A P Q;
    by rewrite !append_assoc.
Qed.

(** ** Rendering through a reference, and [combine] *)

Lemma stringify_returns (b : Builder.t) :
  BuilderMethods.stringify b = (Ret (rendered b), consumed b).
Proof.
  unfold rendered, consumed. rewrite stringify_cases.
  by destruct (truthy (VStr (Builder.combined b))).
Qed.

Lemma stringify_at (this : ref) (h : store) (b : Builder.t) :
  h !! this = Some b ->
  stringify this h = Some (Ret (rendered b), <[this := consumed b]> h).
Proof.
  intros Hb. unfold stringify.
  by rewrite (invoke_at _ _ _ _ Hb), stringify_returns.
Qed.

Lemma rendered_new : rendered Builder.new = "".
Proof. reflexivity. Qed.

Lemma rendered_combined (b : Builder.t) :
  Builder.combined b <> "" -> rendered b = Builder.combined b.
Proof.
  intros Hc. unfold rendered. rewrite stringify_cases. cbn [truthy].
  by destruct (String.eqb_spec (Builder.combined b) "").
Qed.

(** [stringify] leaves a builder as new when the builder holds no combined
    text, or holds nothing in its accumulator. *)
Lemma consumed_new (b : Builder.t) :
  Builder.combined b = "" \/ Builder.current b = Selector.new ->
  consumed b = Builder.new.
Proof.
  unfold consumed. rewrite stringify_cases. intros [Hc|Hs].
  - by rewrite Hc.
  - destruct (truthy (VStr (Builder.combined b))); [|done].
    destruct b as [o s c]. cbn in *. by subst.
Qed.

(** With a combined text, [stringify] returns it and does not touch the
    accumulator: what the accumulator holds is rendered by the next call. *)
Lemma stringify_keeps_accumulator (b : Builder.t) :
  Builder.combined b <> "" ->
  consumed b =
    {| Builder.order := -1;
       Builder.current := Builder.current b;
       Builder.combined := "" |} /\
  rendered (consumed b) = Selector.render (Builder.current b).
Proof.
  intros Hc. unfold consumed, rendered. rewrite stringify_cases.
  cbn [truthy]. destruct (String.eqb_spec (Builder.combined b) ""); [done|].
  cbn [negb snd]. split; [done|]. by rewrite stringify_cases.
Qed.

Lemma combined_text_truthy (s1 c s2 : string) :
  truthy (VStr (s1 +:+ " " +:+ c +:+ " " +:+ s2)) = true.
Proof. by destruct s1. Qed.

Lemma lookup_alloc_old (h : store) (r : ref) (b : Builder.t) :
  h !! r = Some b -> (h ++ [Builder.new]) !! r = Some b.
Proof. intros Hb. by apply lookup_app_l_Some. Qed.

Lemma allocated_below (h : store) (r : ref) (b : Builder.t) :
  h !! r = Some b -> r <> length h.
Proof. intros Hb. apply lookup_lt_Some in Hb. lia. Qed.

(** The facade's [combine] on two different builders. *)
Lemma facade_combine_run (h : store) (A B : ref) (bA bB : Builder.t)
    (c : string) :
  h !! A = Some bA -> h !! B = Some bB -> A <> B ->
  cssSelectorBuilder.combine A c B h =
    Some (Ret (length h),
          <[B := consumed bB]> (<[A := consumed bA]> h) ++
          [Builder.set_combined
             (rendered bA +:+ " " +:+ c +:+ " " +:+ rendered bB)
             Builder.new]).
Proof.
  intros HA HB Hne.
  pose proof (allocated_below _ _ _ HA) as HAl.
  pose proof (allocated_below _ _ _ HB) as HBl.
  unfold cssSelectorBuilder.combine, combine, mbind, store_bind, bindH,
    alloc, mret, store_ret, retH.
  rewrite (stringify_at A _ bA) by (by apply lookup_alloc_old).
  rewrite (stringify_at B _ bB)
    by (rewrite list_lookup_insert_ne by done; by apply lookup_alloc_old).
  rewrite (invoke_at (length h) _ _ Builder.new)
    by (rewrite !list_lookup_insert_ne by done; apply alloc_lookup).
  cbn [fst snd Builder.modify].
  do 2 f_equal.
  rewrite !insert_app_l by (rewrite ?length_insert; by eapply lookup_lt_Some).
  rewrite <- (length_insert h A (consumed bA)).
  rewrite <- (length_insert (<[A:=consumed bA]> h) B (consumed bB)).
  apply alloc_update_again.
Qed.

(** After [stringify] a consistent builder renders as the empty string. *)
Lemma rendered_consumed (b : Builder.t) :
  Builder.combined b = "" \/ Builder.current b = Selector.new ->
  rendered (consumed b) = "".
Proof. intros Hb. by rewrite consumed_new. Qed.

(** [combine] leaves two different, consistent operands as new builders. *)
Lemma combine_consumes (h : store) (A B : ref) (bA bB : Builder.t)
    (c : string) :
  h !! A = Some bA -> h !! B = Some bB -> A <> B ->
  Builder.combined bA = "" \/ Builder.current bA = Selector.new ->
  Builder.combined bB = "" \/ Builder.current bB = Selector.new ->
  exists h',
    cssSelectorBuilder.combine A c B h = Some (Ret (length h), h') /\
    h' !! A = Some Builder.new /\ h' !! B = Some Builder.new.
Proof.
  intros HA HB Hne HcA HcB. eexists. split.
  - by apply facade_combine_run.
  - rewrite !consumed_new by done. split.
    + apply lookup_app_l_Some. rewrite list_lookup_insert_ne by done.
      by eapply lookup_updated.
    + apply lookup_app_l_Some. eapply lookup_updated.
      by rewrite list_lookup_insert_ne.
Qed.

(** ** Calls on one builder leave the others alone *)





(** ** The claims *)

(** C1, as amended.  For every chain of part-adding calls started at the
    facade whose kinds have non-decreasing rank, in which element, id and
    pseudo-element each occur at most once and the id and pseudo-element
    values are non-empty, no call raises and the terminal [stringify]
    returns the concatenation, in the fixed order, of the element name,
    ['#'+id], ['.'+class] for each class in insertion order,
    ['['+clause+']'] for each attribute in insertion order, [':'+name] for
    each pseudo-class in insertion order, and ['::'+pseudoElement], absent
    groups contributing nothing; the builder is left as new. *)
Theorem build_renders_spec_text (h : store) (k : Kind) (v : string)
    (rest : list part) :
  nondecreasing (-1) ((k, v) :: rest) = true ->
  singletons_once ((k, v) :: rest) = true ->
  marked_nonempty ((k, v) :: rest) = true ->
  build (k, v) rest h =
    Some (Ret (spec_text ((k, v) :: rest)), h ++ [Builder.new]).
Proof.
  intros Hnd Honce Hne. rewrite build_run.
  rewrite (addParts_ok ((k, v) :: rest) Builder.new Hnd).
  - rewrite stringify_cases. cbn [Builder.combined Builder.new truthy
      String.eqb negb fst snd Builder.current].
    by rewrite (render_store_parts _ Honce Hne).
  - by apply singletons_once_spec.
  - intros k' Hk' _. rewrite new_holds_nothing. by rewrite Hk'.
Qed.

Lemma build_renders_spec_text_witness :
  build (KElement, "a") [(KAttr, "href"); (KPseudoClass, "focus")] []
  = Some (Ret "a[href]:focus", [Builder.new]).
Proof.
  exact (build_renders_spec_text [] KElement "a"
           [(KAttr, "href"); (KPseudoClass, "focus")]
           eq_refl eq_refl eq_refl).
Defined.

(** C1, as stated, fails: the ranks of [element('a').element('b')] do not
    decrease, and the second call raises instead of reaching [stringify]. *)
Lemma repeated_element_chain_raises :
  nondecreasing (-1) [(KElement, "a"); (KElement, "b")] = true /\
  build (KElement, "a") [(KElement, "b")] []
  = Some (Throw DuplicateSingleton, [Builder.new]).
Proof. split; reflexivity. Qed.

(** C2.  For every builder and every pair of part-adding calls where the
    second call's kind has strictly lower rank than the rank recorded by the
    first, the first call returned and recorded the rank of its kind, and the
    second call raises the ordering error after setting [order] to -1 and
    replacing the accumulator by a new, empty selector. *)
Theorem lower_rank_call_raises (b : Builder.t) (k1 k2 : Kind)
    (v1 v2 : string) :
  weight k2 < Builder.order (addPart k1 v1 b).2 ->
  (addPart k1 v1 b).1 = Ret tt /\
  Builder.order (addPart k1 v1 b).2 = weight k1 /\
  addPart k2 v2 (addPart k1 v1 b).2 =
    (Throw OrderViolation,
     {| Builder.order := -1;
        Builder.current := Selector.new;
        Builder.combined := Builder.combined (addPart k1 v1 b).2 |}).
Proof.
  intros Hlt. pose proof (weight_nonneg k2) as Hk2.
  destruct (addPart k1 v1 b).1 as [[]|e] eqn:Hfst.
  - destruct (addPart_returns _ _ _ Hfst) as [_ Heq].
    rewrite Heq in Hlt |- *. cbn [fst snd] in *.
    split; [done|]. split; [done|]. by rewrite addPart_order_error.
  - destruct (addPart_raises _ _ _ _ Hfst) as [Heq _].
    rewrite Heq in Hlt. cbn in Hlt. lia.
Qed.

Lemma lower_rank_call_raises_witness :
  (addPart KClass "a" Builder.new).1 = Ret tt /\
  Builder.order (addPart KClass "a" Builder.new).2 = weight KClass /\
  addPart KElement "div" (addPart KClass "a" Builder.new).2 =
    (Throw OrderViolation, Builder.new).
Proof.
  apply (lower_rank_call_raises Builder.new KClass KElement "a" "div").
  vm_compute. reflexivity.
Defined.

(** C3, as amended.  When element, id or pseudo-element is supplied a second
    time in a chain, the second invocation raises and resets rank and
    accumulator; the exception is the cardinality error when the two calls
    are consecutive and the first value is non-empty, and the ordering error
    when calls of higher rank were made in between, because every method
    checks the order first. *)
Theorem second_singleton_call_raises (b : Builder.t) (k : Kind)
    (v1 v2 : string) (mids : list part) :
  singleton k = true ->
  (addPart k v1 b).1 = Ret tt ->
  Forall (fun p : part => weight k < weight p.1) mids ->
  (addParts mids (addPart k v1 b).2).1 = Ret tt ->
  (mids = [] -> v1 <> "" ->
   addPart k v2 (addPart k v1 b).2 =
     (Throw DuplicateSingleton,
      {| Builder.order := -1;
         Builder.current := Selector.new;
         Builder.combined := Builder.combined b |})) /\
  (mids <> [] ->
   addPart k v2 (addParts mids (addPart k v1 b).2).2 =
     (Throw OrderViolation,
      {| Builder.order := -1;
         Builder.current := Selector.new;
         Builder.combined := Builder.combined b |})).
Proof.
  intros Hk Hfst Hall Hmids.
  destruct (addPart_returns _ _ _ Hfst) as [_ Heq]. rewrite Heq in *.
  cbn [fst snd] in *. split.
  - intros _ Hv1. rewrite addPart_cases.
    cbn [added Builder.order Builder.set_order Builder.set_current
         Builder.current].
    assert (Hgt : (weight k >? weight k) = false)
      by (rewrite Z.gtb_ltb; apply Z.ltb_irrefl).
    rewrite Hgt, Hk, get_store_part_same by done. cbn [truthy andb].
    by destruct (String.eqb_spec v1 "").
  - intros Hne.
    destruct (addParts mids (added k v1 b)) as [r b2] eqn:Hrun.
    cbn [fst snd] in *. subst r.
    pose proof (addParts_combined mids (added k v1 b)) as Hc.
    rewrite Hrun in Hc. cbn in Hc.
    rewrite addPart_order_error.
    + by rewrite reset_fields, Hc.
    + rewrite (addParts_order _ _ _ Hrun).
      apply final_order_above; [by right | done].
Qed.

Lemma second_singleton_call_raises_witness :
  addPart KElement "span" (addPart KElement "div" Builder.new).2
  = (Throw DuplicateSingleton, Builder.new) /\
  addPart KElement "span"
    (addParts [(KId, "main")] (addPart KElement "div" Builder.new).2).2
  = (Throw OrderViolation, Builder.new).
Proof.
  split.
  - apply (second_singleton_call_raises Builder.new KElement "div" "span" []);
      [reflexivity | reflexivity | constructor | reflexivity
      | reflexivity | discriminate].
  - apply (second_singleton_call_raises Builder.new KElement "div" "span"
             [(KId, "main")]);
      [reflexivity | reflexivity | | reflexivity | discriminate].
    repeat constructor.
Defined.

(** C3, as stated, fails: [element('div').id('main').element('span')]
    raises the ordering error, not the cardinality error. *)
Lemma element_after_id_raises_order_error :
  build (KElement, "div") [(KId, "main"); (KElement, "span")] []
  = Some (Throw OrderViolation, [Builder.new]) /\
  OrderViolation <> DuplicateSingleton.
Proof. split; [reflexivity | discriminate]. Qed.

(** C4, as amended.  For all builders A and B that are different objects and
    every combinator string [c], [combine(A, c, B)] followed by [stringify]
    returns exactly what [A.stringify()] would return, one space, [c], one
    space, and what [B.stringify()] would return; A and B may hold any
    state, also a combined text of an earlier [combine], and then contribute
    that text.  Both operands are left as [stringify] leaves them. *)
Theorem combine_renders (h : store) (A B : ref) (bA bB : Builder.t)
    (c : string) :
  h !! A = Some bA -> h !! B = Some bB -> A <> B ->
  (this ← cssSelectorBuilder.combine A c B; stringify this) h =
    Some (Ret (rendered bA +:+ " " +:+ c +:+ " " +:+ rendered bB),
          <[B := consumed bB]> (<[A := consumed bA]> h) ++ [Builder.new])
  /\ (Builder.combined bA <> "" -> rendered bA = Builder.combined bA)
  /\ (Builder.combined bB <> "" -> rendered bB = Builder.combined bB).
Proof.
  intros HA HB Hne. split; [|split; apply rendered_combined].
  unfold mbind, store_bind, bindH.
  rewrite (facade_combine_run h A B bA bB c HA HB Hne).
  set (h' := <[B := consumed bB]> (<[A := consumed bA]> h)).
  assert (Hlen : length h = length h')
    by (subst h'; by rewrite !length_insert).
  rewrite Hlen.
  rewrite (stringify_at (length h') _ _ (list_lookup_middle h' [] _ _ eq_refl)).
  rewrite alloc_update_again. do 3 f_equal.
  - apply rendered_combined. cbn [Builder.set_combined Builder.combined].
    intros Hbad. pose proof (combined_text_truthy (rendered bA) c (rendered bB))
      as Ht.
    rewrite Hbad in Ht. discriminate Ht.
  - unfold consumed. rewrite stringify_cases.
    cbn [Builder.set_combined Builder.combined].
    by rewrite combined_text_truthy.
Qed.

Lemma combine_renders_witness :
  (this ← cssSelectorBuilder.combine 0%nat "+" 1%nat; stringify this)
    [added KElement "tr" Builder.new;
     Builder.set_combined "td > a" Builder.new]
  = Some (Ret "tr + td > a", [Builder.new; Builder.new; Builder.new]).
Proof.
  apply (combine_renders
           [added KElement "tr" Builder.new;
            Builder.set_combined "td > a" Builder.new]
           0%nat 1%nat (added KElement "tr" Builder.new)
           (Builder.set_combined "td > a" Builder.new) "+");
    [reflexivity | reflexivity | discriminate].
Defined.

(** C4, as stated, fails when both operands are the same builder: the first
    [stringify] empties it, so the right operand contributes nothing. *)
Lemma combine_same_operand :
  (x ← cssSelectorBuilder.element "a";
   this ← cssSelectorBuilder.combine x "+" x;
   stringify this) []
  = Some (Ret "a + ", [Builder.new; Builder.new]) /\
  rendered (added KElement "a" Builder.new) +:+ " " +:+ "+" +:+ " " +:+
  rendered (added KElement "a" Builder.new) = "a + a".
Proof. split; reflexivity. Qed.

(** C5 fails on the code: a builder that holds a combined text and a part
    added after it returns the combined text from [stringify] and keeps the
    part, so the second [stringify] returns the part, not the empty string. *)
Theorem stale_accumulator_after_combined_render :
  (x ← cssSelectorBuilder.element "a";
   y ← cssSelectorBuilder.element "b";
   z ← cssSelectorBuilder.combine x "+" y;
   z ← method z (BuilderMethods.element "div");
   s1 ← stringify z;
   s2 ← stringify z;
   mret (s1, s2)) []
  = Some (Ret ("a + b", "div"), [Builder.new; Builder.new; Builder.new]).
Proof. reflexivity. Qed.

(** C6 fails on the code for the same reason: an operand that holds a
    combined text and a part added after it keeps the part when [combine]
    renders it, and rendering it again returns the part. *)
Theorem combine_leaves_stale_operand :
  (x ← cssSelectorBuilder.element "a";
   y ← cssSelectorBuilder.element "b";
   l ← cssSelectorBuilder.combine x "+" y;
   l ← method l (BuilderMethods.element "div");
   r ← cssSelectorBuilder.element "p";
   z ← cssSelectorBuilder.combine l ">" r;
   s1 ← stringify l;
   s2 ← stringify z;
   mret (s1, s2)) []
  = Some (Ret ("div", "a + b > p"),
          [Builder.new; Builder.new; Builder.new; Builder.new; Builder.new]).
Proof. reflexivity. Qed.

(** C7, as amended.  For every builder whose recorded rank does not exceed
    the rank of the kind, each of class, attr and pseudoClass may be invoked
    any number of consecutive times without raising; when the builder holds
    no combined text, the values appear in the rendered string in insertion
    order, each in its canonical syntax, between the text of what the
    builder held before and the text of the later groups. *)
Theorem repeatable_calls_accumulate (b : Builder.t) (k : Kind) :
  singleton k = false ->
  Builder.order b <= weight k ->
  (forall vs : list string, (addParts (map (pair k) vs) b).1 = Ret tt) /\
  (Builder.combined b = "" ->
   exists pre post : string,
     forall vs : list string,
       rendered (addParts (map (pair k) vs) b).2
       = pre +:+ concat_all (map (canonical k) vs) +:+ post).
Proof.
  intros Hk Ho. split.
  - intros vs. by rewrite repeat_ok.
  - intros Hc.
    destruct (render_repeat k (Builder.current b) Hk) as (pre & post & Hr).
    exists pre, post. intros vs. rewrite repeat_ok by done.
    unfold rendered. rewrite stringify_cases. cbn [snd Builder.combined].
    rewrite Hc. cbn [truthy String.eqb negb fst Builder.current].
    apply Hr.
Qed.

Lemma repeatable_calls_accumulate_witness :
  (forall vs : list string,
     (addParts (map (pair KClass) vs) Builder.new).1 = Ret tt) /\
  (Builder.combined Builder.new = "" ->
   exists pre post : string,
     forall vs : list string,
       rendered (addParts (map (pair KClass) vs) Builder.new).2
       = pre +:+ concat_all (map (canonical KClass) vs) +:+ post).
Proof.
  apply (repeatable_calls_accumulate Builder.new KClass).
  - reflexivity.
  - vm_compute. discriminate.
Defined.

(** C7, as stated, fails: on a builder that holds a pseudo-element the first
    [class] call raises the ordering error. *)
Lemma class_after_pseudoElement_raises :
  build (KPseudoElement, "after") [(KClass, "a")] []
  = Some (Throw OrderViolation, [Builder.new]).
Proof. reflexivity. Qed.



(** C9, as amended.  The cardinality check tests the stored field for
    truthiness, not for having been set: it raises exactly when the field is
    truthy.  So after element, id or pseudo-element was supplied with the
    empty string, a second call of that kind never raises the cardinality
    error, whereas after a non-empty value the immediately following call
    does.  The second call overwrites the stored value when it follows
    immediately, and whenever the recorded rank does not exceed the rank of
    the kind; when calls of higher rank were made in between it raises the
    ordering error and resets the builder, because the order is checked
    first. *)
Theorem empty_singleton_second_call (b : Builder.t) (k : Kind)
    (v w : string) (mids : list part) :
  singleton k = true ->
  (addPart k "" b).1 = Ret tt ->
  Forall (fun p : part => weight k < weight p.1) mids ->
  (addParts mids (addPart k "" b).2).1 = Ret tt ->
  (forall b' : Builder.t,
     BuilderMethods.checkPropertyExistance (propOf k) b' =
       if truthy (Selector.get (propOf k) (Builder.current b'))
       then (Throw DuplicateSingleton, reset b')
       else (Ret tt, b')) /\
  Selector.get (propOf k) (Builder.current (addPart k "" b).2) = VStr "" /\
  (mids = [] ->
   addPart k v (addPart k "" b).2
   = (Ret tt, added k v (addPart k "" b).2) /\
   Selector.get (propOf k)
     (Builder.current (added k v (addPart k "" b).2)) = VStr v) /\
  (mids <> [] ->
   addPart k v (addParts mids (addPart k "" b).2).2 =
     (Throw OrderViolation,
      {| Builder.order := -1;
         Builder.current := Selector.new;
         Builder.combined := Builder.combined b |})) /\
  (w <> "" -> (addPart k w b).1 = Ret tt ->
   addPart k v (addPart k w b).2 =
     (Throw DuplicateSingleton,
      {| Builder.order := -1;
         Builder.current := Selector.new;
         Builder.combined := Builder.combined b |})) /\
  (forall others : list part,
     Forall (fun p : part => p.1 <> k) others ->
     (Builder.order (addParts others (addPart k "" b).2).2 <= weight k ->
      addPart k v (addParts others (addPart k "" b).2).2 =
        (Ret tt, added k v (addParts others (addPart k "" b).2).2)) /\
     (weight k < Builder.order (addParts others (addPart k "" b).2).2 ->
      addPart k v (addParts others (addPart k "" b).2).2 =
        (Throw OrderViolation,
         reset (addParts others (addPart k "" b).2).2))).
Proof.
  intros Hk Hfst Hall Hmids.
  assert (Hsame : (weight k >? weight k) = false)
    by (rewrite Z.gtb_ltb; apply Z.ltb_irrefl).
  split.
  { intros b'. unfold_methods.
    by destruct (truthy (Selector.get (propOf k) (Builder.current b'))). }
  destruct (addPart_returns _ _ _ Hfst) as [_ Heq]. rewrite Heq in *.
  cbn [fst snd] in *.
  assert (Hget : Selector.get (propOf k) (Builder.current (added k "" b))
                 = VStr "") by (by apply get_store_part_same).
  split; [done|]. split; [|split; [|split]].
  - intros _. split; [|by apply get_store_part_same].
    rewrite addPart_cases, Hget.
    cbn [added Builder.order Builder.set_order Builder.set_current].
    by rewrite Hsame, andb_false_r.
  - intros Hne.
    destruct (addParts mids (added k "" b)) as [r b2] eqn:Hrun.
    cbn [fst snd] in *. subst r.
    pose proof (addParts_combined mids (added k "" b)) as Hc.
    rewrite Hrun in Hc. cbn in Hc.
    rewrite addPart_order_error.
    + by rewrite reset_fields, Hc.
    + rewrite (addParts_order _ _ _ Hrun).
      apply final_order_above; [by right | done].
  - intros Hw Hret. destruct (addPart_returns _ _ _ Hret) as [_ ->].
    cbn [snd]. rewrite addPart_cases.
    cbn [added Builder.order Builder.set_order Builder.set_current
         Builder.current].
    rewrite Hsame, Hk, get_store_part_same by done. cbn [truthy andb].
    by destruct (String.eqb_spec w "").
  - intros others Hothers.
    pose proof (addParts_keeps_falsy k others Hk (added k "" b) Hothers)
      as Hfalsy.
    rewrite Hget in Hfalsy. specialize (Hfalsy eq_refl). split.
    + intros Hle. rewrite addPart_cases, Hfalsy, andb_false_r.
      assert (Hgt : (Builder.order (addParts others (added k "" b)).2
                     >? weight k) = false)
        by (rewrite Z.gtb_ltb; apply Z.ltb_ge; lia).
      by rewrite Hgt.
    + intros Hlt. by apply addPart_order_error.
Qed.

Lemma empty_singleton_second_call_witness :
  (addPart KElement "span" (addPart KElement "" Builder.new).2
   = (Ret tt, added KElement "span" (addPart KElement "" Builder.new).2) /\
   Selector.get (propOf KElement)
     (Builder.current
        (added KElement "span" (addPart KElement "" Builder.new).2))
   = VStr "span") /\
  addPart KElement "span"
    (addParts [(KId, "x")] (addPart KElement "" Builder.new).2).2
  = (Throw OrderViolation, Builder.new).
Proof.
  split.
  - destruct (empty_singleton_second_call Builder.new KElement "span" "div"
                [] eq_refl eq_refl ltac:(constructor) eq_refl)
      as (_ & _ & Hnext & _).
    exact (Hnext eq_refl).
  - assert (Hmid : Forall (fun p : part => weight KElement < weight p.1)
                     [(KId, "x")]) by (repeat constructor).
    destruct (empty_singleton_second_call Builder.new KElement "span" "div"
                [(KId, "x")] eq_refl eq_refl Hmid eq_refl)
      as (_ & _ & _ & Hlater & _).
    apply Hlater. discriminate.
Defined.

(** C9, as stated, fails: after [element('')] and [id('x')] the second
    [element] call does not overwrite the stored value; it raises the
    ordering error and the builder is reset. *)
Lemma empty_element_after_id_raises :
  build (KElement, "") [(KId, "x"); (KElement, "y")] []
  = Some (Throw OrderViolation, [Builder.new]) /\
  addPart KElement "y"
    (addParts [(KId, "x")] (addPart KElement "" Builder.new).2).2
  = (Throw OrderViolation, Builder.new).
Proof. split; reflexivity. Qed.

(** C10.  The reset performed before raising either error assigns only the
    rank and the accumulator: for every builder that holds a combined text,
    a chain of part-adding calls that ends in a raise leaves the combined
    text as it was, and [stringify] then still returns it. *)
Theorem raise_keeps_combined (b : Builder.t) (cs : list part) (e : exn)
    (b' : Builder.t) :
  Builder.combined b <> "" ->
  addParts cs b = (Throw e, b') ->
  Builder.combined b' = Builder.combined b /\
  BuilderMethods.stringify b' = (Ret (Builder.combined b), Builder.new).
Proof.
  intros Hc Hrun.
  pose proof (addParts_combined cs b) as Hcomb.
  rewrite Hrun in Hcomb. cbn [snd] in Hcomb.
  destruct (addParts_raises _ _ _ _ Hrun) as [Ho Hs].
  split; [done|]. rewrite stringify_cases, Hcomb. cbn [truthy].
  destruct (String.eqb_spec (Builder.combined b) ""); [done|]. cbn [negb].
  destruct b' as [o s c]. cbn in *. by subst.
Qed.

Lemma raise_keeps_combined_witness :
  let b := {| Builder.order := -1; Builder.current := Selector.new;
              Builder.combined := "a + b" |} in
  Builder.combined (reset (added KClass "x" b)) = "a + b" /\
  BuilderMethods.stringify (reset (added KClass "x" b))
  = (Ret "a + b", Builder.new).
Proof.
  apply (raise_keeps_combined
           {| Builder.order := -1; Builder.current := Selector.new;
              Builder.combined := "a + b" |}
           [(KClass, "x"); (KElement, "y")] OrderViolation).
  - discriminate.
  - reflexivity.
Defined.

(** ** Further properties of the builder *)

Lemma consumed_twice (b : Builder.t) : consumed (consumed b) = Builder.new.
Proof.
  apply consumed_new. left. unfold consumed. rewrite stringify_cases.
  by destruct (truthy (VStr (Builder.combined b))).
Qed.

(** X1.  [stringify] never raises and always leaves rank -1 and no combined
    text; whatever the builder held, after two [stringify] calls it is as
    [new Builder()] leaves it, and a third call returns the empty string. *)
Theorem stringify_twice_new (b : Builder.t) :
  (BuilderMethods.stringify b).1 = Ret (rendered b) /\
  Builder.order (consumed b) = -1 /\
  Builder.combined (consumed b) = "" /\
  consumed (consumed b) = Builder.new /\
  rendered (consumed (consumed b)) = "".
Proof.
  split; [by rewrite stringify_returns|].
  rewrite consumed_twice. unfold consumed. rewrite stringify_cases.
  by destruct (truthy (VStr (Builder.combined b))).
Qed.

Lemma addPart_after_reset (b : Builder.t) (k : Kind) (v : string) :
  addPart k v (reset b) = (Ret tt, added k v (reset b)).
Proof.
  rewrite addPart_cases.
  assert (Hgt : (Builder.order (reset b) >? weight k) = false)
    by (by destruct k).
  rewrite Hgt.
  change (Builder.current (reset b)) with (Builder.current Builder.new).
  by rewrite new_holds_nothing, andb_negb_r.
Qed.

(** X2.  A builder recovers from a raise: after a part-adding call that
    raised, a part-adding call of any kind with any value returns, and
    stores its value in an otherwise empty accumulator. *)
Theorem call_after_raise_returns (b : Builder.t) (k k' : Kind)
    (v v' : string) (e : exn) :
  (addPart k v b).1 = Throw e ->
  addPart k' v' (addPart k v b).2 =
    (Ret tt,
     {| Builder.order := weight k';
        Builder.current := store_part k' v' Selector.new;
        Builder.combined := Builder.combined b |}).
Proof.
  intros Hraise. destruct (addPart_raises _ _ _ _ Hraise) as [-> _].
  by rewrite addPart_after_reset.
Qed.

Lemma call_after_raise_returns_witness :
  addPart KElement "td" (addPart KElement "div" (added KClass "a" Builder.new)).2
  = (Ret tt, added KElement "td" Builder.new).
Proof.
  apply (call_after_raise_returns (added KClass "a" Builder.new)
           KElement KElement "div" "td" OrderViolation).
  reflexivity.
Defined.

(** X3.  The combined text takes precedence over every part added after it:
    on a builder that holds a combined text, whatever chain of part-adding
    calls follows, and whether it returns or raises, [stringify] returns the
    combined text. *)
Theorem combined_text_wins (b : Builder.t) (cs : list part) :
  Builder.combined b <> "" ->
  rendered (addParts cs b).2 = Builder.combined b.
Proof.
  intros Hc. rewrite rendered_combined; rewrite addParts_combined; done.
Qed.

Lemma combined_text_wins_witness :
  rendered
    (addParts [(KElement, "div"); (KClass, "x")]
       (Builder.set_combined "a + b" Builder.new)).2
  = "a + b".
Proof.
  apply (combined_text_wins (Builder.set_combined "a + b" Builder.new)
           [(KElement, "div"); (KClass, "x")]).
  discriminate.
Defined.

(** X4.  When each outcome of a part-adding call occurs: the ordering error
    exactly when the recorded rank is above the rank of the kind; the
    cardinality error exactly when the rank allows the kind, the kind is
    element, id or pseudo-element, and its property is truthy; a return in
    every other case. *)
Theorem outcome_conditions (b : Builder.t) (k : Kind) (v : string) :
  ((addPart k v b).1 = Throw OrderViolation <->
   weight k < Builder.order b) /\
  ((addPart k v b).1 = Throw DuplicateSingleton <->
   Builder.order b <= weight k /\ singleton k = true /\
   truthy (Selector.get (propOf k) (Builder.current b)) = true) /\
  ((addPart k v b).1 = Ret tt <->
   Builder.order b <= weight k /\
   singleton k && truthy (Selector.get (propOf k) (Builder.current b))
   = false).
Proof.
  rewrite addPart_cases.
  destruct (Builder.order b >? weight k) eqn:Hgt;
    rewrite Z.gtb_ltb in Hgt;
    [apply Z.ltb_lt in Hgt | apply Z.ltb_ge in Hgt];
    [|destruct (singleton k); cbn [andb];
      [destruct (truthy (Selector.get (propOf k) (Builder.current b)))|]];
    cbn [fst]; (split; [|split]); split; intros H;
    try done; try lia; try (by inversion H);
    try (destruct H as (? & ? & ?); done || lia);
    try (destruct H as [? ?]; done || lia).
Qed.

(** ** Chains a new builder accepts *)

Lemma addPart_returns_field (k : Kind) (v : string) (b : Builder.t) :
  (addPart k v b).1 = Ret tt ->
  singleton k && truthy (Selector.get (propOf k) (Builder.current b))
  = false.
Proof.
  rewrite addPart_cases.
  destruct (Builder.order b >? weight k); [done|].
  by destruct (singleton k && _).
Qed.

Lemma returned_nondecreasing (cs : list part) :
  forall b : Builder.t,
    (addParts cs b).1 = Ret tt -> nondecreasing (Builder.order b) cs = true.
Proof.
  induction cs as [|[k v] cs IH]; intros b; [done|].
  rewrite addParts_cons.
  destruct (addPart k v b) as [[[]|e] b1] eqn:Hcall; [|done].
  assert (Hret : (addPart k v b).1 = Ret tt) by (by rewrite Hcall).
  destruct (addPart_returns _ _ _ Hret) as [Hle Heq].
  rewrite Hcall in Heq. injection Heq as ->.
  intros Hrest. cbn [nondecreasing].
  rewrite (proj2 (Z.leb_le _ _) Hle). by apply (IH (added k v b)).
Qed.

Lemma returned_once (cs : list part) :
  singletons_nonempty cs = true ->
  forall (b : Builder.t) (k : Kind),
    (addParts cs b).1 = Ret tt ->
    singleton k = true ->
    (length (values k cs) <= 1)%nat /\
    (truthy (Selector.get (propOf k) (Builder.current b)) = true ->
     values k cs = []).
Proof.
  induction cs as [|[k' v] cs IH]; intros Hne b k;
    [intros _ _; split; [apply Nat.le_0_l | done]|].
  cbn [singletons_nonempty forallb fst snd] in Hne.
  apply andb_true_iff in Hne as [Hv Hne].
  rewrite addParts_cons.
  destruct (addPart k' v b) as [[[]|e] b1] eqn:Hcall; [|done].
  assert (Hret : (addPart k' v b).1 = Ret tt) by (by rewrite Hcall).
  pose proof (addPart_returns_field _ _ _ Hret) as Hfield.
  destruct (addPart_returns _ _ _ Hret) as [_ Heq].
  rewrite Hcall in Heq. injection Heq as ->.
  intros Hrest Hk. destruct (IH Hne (added k' v b) k Hrest Hk) as [Hlen Hnil].
  cbn [values]. destruct (decide (k' = k)) as [->|Hkk].
  - rewrite Hk in Hv, Hfield. cbn [negb orb andb] in Hv, Hfield.
    rewrite Hnil.
    + split; [cbn; lia | by rewrite Hfield].
    + cbn [added Builder.set_order Builder.set_current Builder.current].
      by rewrite get_store_part_same.
  - split; [done|]. intros Ht. apply Hnil.
    cbn [added Builder.set_order Builder.set_current Builder.current].
    by rewrite get_store_part_other.
Qed.

Lemma singletons_once_intro (cs : list part) :
  (forall k, singleton k = true -> (length (values k cs) <= 1)%nat) ->
  singletons_once cs = true.
Proof.
  intros Hall. unfold singletons_once. cbn [forallb].
  rewrite !andb_true_iff.
  repeat split; try apply Nat.leb_le; by apply Hall.
Qed.

(** X5.  The chains a new builder accepts: when the element, id and
    pseudo-element values are non-empty, a chain of part-adding calls on a
    new builder raises no exception if and only if its ranks never decrease
    and each of element, id and pseudo-element occurs at most once. *)
Theorem accepted_iff_ordered_once (cs : list part) :
  singletons_nonempty cs = true ->
  (addParts cs Builder.new).1 = Ret tt <->
  nondecreasing (-1) cs = true /\ singletons_once cs = true.
Proof.
  intros Hne. split.
  - intros Hret. split.
    + by apply (returned_nondecreasing cs Builder.new).
    + apply singletons_once_intro. intros k Hk.
      by apply (returned_once cs Hne Builder.new k).
  - intros [Hnd Honce]. rewrite addParts_ok; [done|done| |].
    + by apply singletons_once_spec.
    + intros k Hk _. by rewrite new_holds_nothing, Hk.
Qed.

Lemma accepted_iff_ordered_once_witness :
  (addParts [(KElement, "a"); (KClass, "b"); (KClass, "c")] Builder.new).1
  = Ret tt <->
  nondecreasing (-1) [(KElement, "a"); (KClass, "b"); (KClass, "c")] = true /\
  singletons_once [(KElement, "a"); (KClass, "b"); (KClass, "c")] = true.
Proof.
  apply (accepted_iff_ordered_once
           [(KElement, "a"); (KClass, "b"); (KClass, "c")]).
  reflexivity.
Defined.

(** ** Builders without combined text *)

Lemma weight_inj (k k' : Kind) : weight k = weight k' -> k = k'.
Proof. by destruct k, k'. Qed.

Lemma untouched_store_part_other (k k' : Kind) (v : string)
    (s : Selector.t) :
  k <> k' -> untouched k' (store_part k v s) = untouched k' s.
Proof. intros Hk. unfold untouched. by rewrite get_store_part_other. Qed.

Lemma untouched_new (k : Kind) : untouched k Selector.new = true.
Proof. by destruct k. Qed.

Lemma untouched_falsy (k : Kind) (s : Selector.t) :
  singleton k = true -> untouched k s = true ->
  truthy (Selector.get (propOf k) s) = false.
Proof.
  unfold untouched. intros Hk.
  destruct (Selector.get (propOf k) s) as [| |x|l|] eqn:Hget; try done.
  destruct k; try discriminate Hk; destruct s as [e i ? ? ? q];
    cbn in Hget; [by destruct e | by destruct i | by destruct q].
Qed.

Lemma tidy_spec (b : Builder.t) :
  tidy b = true <->
  Builder.combined b = "" /\
  forall k, Builder.order b < weight k ->
            untouched k (Builder.current b) = true.
Proof.
  unfold tidy. rewrite andb_true_iff, String.eqb_eq, forallb_forall.
  split; intros [Hc Hall]; (split; [done|]).
  - intros k Hk. assert (Hin : In k all_kinds) by (destruct k; cbn; tauto).
    specialize (Hall k Hin). apply orb_true_iff in Hall as [Hle|Hu]; [|done].
    apply Z.leb_le in Hle. lia.
  - intros k _. destruct (Z.leb_spec (weight k) (Builder.order b)); [done|].
    by rewrite Hall.
Qed.

Lemma tidy_reset (b : Builder.t) : tidy b = true -> tidy (reset b) = true.
Proof.
  rewrite !tidy_spec. intros [Hc _]. split; [done|].
  intros k _. apply untouched_new.
Qed.

Lemma tidy_added (b : Builder.t) (k : Kind) (v : string) :
  Builder.order b <= weight k -> tidy b = true -> tidy (added k v b) = true.
Proof.
  rewrite !tidy_spec. intros Hle [Hc Hall]. split; [done|].
  intros k' Hk'. cbn [added Builder.set_order Builder.set_current
    Builder.order Builder.current] in *.
  rewrite untouched_store_part_other; [apply Hall; lia|].
  intros ->. lia.
Qed.

(** X6.  An invariant of builders that never held a combined text: no
    combined text, and nothing stored for any kind above the recorded rank.
    A new builder has it, and every part-adding call, returning or raising,
    and every [stringify] keeps it; with it, [stringify] leaves the builder
    as new. *)
Theorem tidy_invariant (b : Builder.t) (k : Kind) (v : string) :
  tidy Builder.new = true /\
  (tidy b = true ->
   tidy (addPart k v b).2 = true /\
   consumed b = Builder.new /\
   (Builder.order b = -1 -> rendered b = "")).
Proof.
  split; [reflexivity|]. intros Ht. split; [|split].
  - rewrite addPart_cases.
    destruct (Builder.order b >? weight k) eqn:Hgt; [by apply tidy_reset|].
    destruct (singleton k && _); [by apply tidy_reset|].
    apply tidy_added; [|done].
    rewrite Z.gtb_ltb in Hgt. by apply Z.ltb_ge in Hgt.
  - apply consumed_new. left. by apply tidy_spec in Ht as [? _].
  - intros Ho. apply tidy_spec in Ht as [Hc Hall].
    unfold rendered. rewrite stringify_cases, Hc. cbn [truthy String.eqb negb fst].
    assert (Hu : forall k, untouched k (Builder.current b) = true)
      by (intros k'; apply Hall; rewrite Ho; pose proof (weight_nonneg k'); lia).
    pose proof (Hu KElement) as H0. pose proof (Hu KId) as H1.
    pose proof (Hu KClass) as H2. pose proof (Hu KAttr) as H3.
    pose proof (Hu KPseudoClass) as H4. pose proof (Hu KPseudoElement) as H5.
    destruct (Builder.current b) as [[e|] [i|] [|c cl] [|a al] [|p pl] [q|]];
      by cbn in *.
Qed.

Lemma tidy_invariant_witness :
  tidy (addPart KClass "a" (added KId "main" Builder.new)).2 = true /\
  consumed (added KId "main" Builder.new) = Builder.new /\
  (Builder.order (added KId "main" Builder.new) = -1 ->
   rendered (added KId "main" Builder.new) = "").
Proof.
  apply (tidy_invariant (added KId "main" Builder.new) KClass "a").
  reflexivity.
Defined.

(** X7.  On a builder that never held a combined text the cardinality error
    is raised only by a repeated call: the kind is element, id or
    pseudo-element and it is the kind of the last part the builder
    accepted. *)
Theorem duplicate_only_when_repeated (b : Builder.t) (k : Kind) (v : string) :
  tidy b = true ->
  (addPart k v b).1 = Throw DuplicateSingleton ->
  singleton k = true /\ Builder.order b = weight k.
Proof.
  intros Ht. apply tidy_spec in Ht as [_ Hall]. rewrite addPart_cases.
  destruct (Builder.order b >? weight k) eqn:Hgt; cbn [fst].
  { intros Hbad. by destruct errors_differ. }
  rewrite Z.gtb_ltb in Hgt. apply Z.ltb_ge in Hgt.
  destruct (singleton k) eqn:Hk; [|done]. cbn [andb].
  destruct (truthy _) eqn:Htr; [|done]. intros _. split; [done|].
  destruct (Z.eq_dec (Builder.order b) (weight k)) as [|Hne]; [done|].
  rewrite untouched_falsy in Htr; [done|done|]. apply Hall. lia.
Qed.

Lemma duplicate_only_when_repeated_witness :
  singleton KId = true /\
  Builder.order (added KId "main" Builder.new) = weight KId.
Proof.
  apply (duplicate_only_when_repeated (added KId "main" Builder.new)
           KId "data"); reflexivity.
Defined.

(** ** Whole chains at the facade and through a reference *)

Lemma addParts_raise_kind (cs : list part) :
  forall b e b',
    addParts cs b = (Throw e, b') ->
    e = OrderViolation \/ e = DuplicateSingleton.
Proof.
  induction cs as [|[k v] cs IH]; intros b e b'; [done|].
  rewrite addParts_cons.
  destruct (addPart k v b) as [[[]|e1] b1] eqn:Hcall; [by apply IH|].
  intros [= -> ->].
  by apply (addPart_raises k v b e); rewrite Hcall.
Qed.

(** X8.  A chain written at the facade leaves nothing behind: whether it
    ends in the text [stringify] returns or in one of the two errors, the
    builder the factory made is afterwards as [new Builder()] leaves it, and
    no other object of the store has changed. *)
Theorem build_leaves_new (first : part) (rest : list part) (h : store) :
  (exists s, build first rest h = Some (Ret s, h ++ [Builder.new])) \/
  build first rest h = Some (Throw OrderViolation, h ++ [Builder.new]) \/
  build first rest h = Some (Throw DuplicateSingleton, h ++ [Builder.new]).
Proof.
  destruct first as [k v]. rewrite build_run.
  pose proof (addParts_combined ((k, v) :: rest) Builder.new) as Hc.
  destruct (addParts ((k, v) :: rest) Builder.new) as [[[]|e] b] eqn:Hrun;
    cbn [snd Builder.new Builder.combined] in Hc.
  - left. exists (rendered b). rewrite stringify_returns. cbn [fst snd].
    by rewrite consumed_new by (by left).
  - destruct (addParts_raises _ _ _ _ Hrun) as [Ho Hs].
    assert (b = Builder.new) as ->
      by (destruct b as [o s c]; cbn in *; by subst).
    right. destruct (addParts_raise_kind _ _ _ _ Hrun) as [->| ->]; auto.
Qed.



Lemma render_store_empty (k : Kind) (s : Selector.t) :
  singleton k = true ->
  truthy (Selector.get (propOf k) s) = false ->
  Selector.render (store_part k "" s) = Selector.render s.
Proof.
  intros Hk Hf. rewrite !render_pieces.
  destruct k; try discriminate Hk; destruct s as [e i cl al pl q];
    cbn in Hf; cbn [store_part Selector.set_element Selector.set_id
      Selector.set_pseudoElement Selector.element Selector.id
      Selector.classes Selector.attributes Selector.pseudoClasses
      Selector.pseudoElement ofNullable truthy String.eqb negb];
    [destruct e | destruct i | destruct q]; cbn in Hf |- *;
    by rewrite ?Hf.
Qed.

(** X10.  The empty string counts as no value: on a builder without
    combined text a call of element, id or pseudoElement with the empty
    string, when it returns, does not change what the builder renders; no
    ['#'] or ['::'] is printed for it. *)
Theorem empty_singleton_renders_nothing (b : Builder.t) (k : Kind) :
  singleton k = true ->
  Builder.combined b = "" ->
  (addPart k "" b).1 = Ret tt ->
  rendered (addPart k "" b).2 = rendered b.
Proof.
  intros Hk Hc Hret.
  pose proof (addPart_returns_field _ _ _ Hret) as Hf.
  rewrite Hk in Hf. cbn [andb] in Hf.
  destruct (addPart_returns _ _ _ Hret) as [_ ->]. cbn [snd].
  unfold rendered. rewrite !stringify_cases.
  cbn [added Builder.set_order Builder.set_current Builder.combined
       Builder.current].
  rewrite Hc. cbn [truthy String.eqb negb fst].
  by apply render_store_empty.
Qed.

Lemma empty_singleton_renders_nothing_witness :
  rendered (addPart KId "" (added KElement "div" Builder.new)).2
  = rendered (added KElement "div" Builder.new).
Proof.
  apply (empty_singleton_renders_nothing (added KElement "div" Builder.new)
           KId); reflexivity.
Defined.

(** ** More on [combine] *)

Lemma stringify_last (g : store) (b : Builder.t) :
  stringify (length g) (g ++ [b])
  = Some (Ret (rendered b), g ++ [consumed b]).
Proof.
  rewrite (stringify_at _ _ b) by (by apply list_lookup_middle).
  by rewrite alloc_update_again.
Qed.

Lemma rendered_set_combined (t : string) (b : Builder.t) :
  t <> "" -> rendered (Builder.set_combined t b) = t.
Proof. intros Ht. by rewrite rendered_combined. Qed.

Lemma consumed_set_combined_new (t : string) :
  consumed (Builder.set_combined t Builder.new) = Builder.new.
Proof. apply consumed_new. by right. Qed.

Lemma combined_text_nonempty (s1 c s2 : string) :
  s1 +:+ " " +:+ c +:+ " " +:+ s2 <> "".
Proof. by destruct s1. Qed.

(** The facade's [combine] with the same builder as both operands. *)
Lemma facade_combine_same_run (h : store) (A : ref) (bA : Builder.t)
    (c : string) :
  h !! A = Some bA ->
  cssSelectorBuilder.combine A c A h =
    Some (Ret (length h),
          <[A := Builder.new]> h ++
          [Builder.set_combined
             (rendered bA +:+ " " +:+ c +:+ " " +:+ rendered (consumed bA))
             Builder.new]).
Proof.
  intros HA. pose proof (allocated_below _ _ _ HA) as HAl.
  unfold cssSelectorBuilder.combine, combine, mbind, store_bind, bindH,
    alloc, mret, store_ret, retH.
  rewrite (stringify_at A _ bA) by (by apply lookup_alloc_old).
  rewrite (stringify_at A _ (consumed bA))
    by (eapply lookup_updated; by apply lookup_alloc_old).
  rewrite (invoke_at (length h) _ _ Builder.new)
    by (rewrite !list_lookup_insert_ne by done; apply alloc_lookup).
  cbn [fst snd Builder.modify].
  rewrite list_insert_insert_eq, consumed_twice. do 2 f_equal.
  rewrite insert_app_l by (by eapply lookup_lt_Some).
  rewrite <- (length_insert h A Builder.new).
  apply alloc_update_again.
Qed.

Lemma same_operand_stringify_run (h : store) (A : ref) (bA : Builder.t)
    (c : string) :
  h !! A = Some bA ->
  (this ← cssSelectorBuilder.combine A c A; stringify this) h =
    Some (Ret (rendered bA +:+ " " +:+ c +:+ " " +:+ rendered (consumed bA)),
          <[A := Builder.new]> h ++ [Builder.new]).
Proof.
  intros HA. unfold mbind, store_bind, bindH.
  rewrite (facade_combine_same_run h A bA c HA).
  rewrite <- (length_insert h A Builder.new), stringify_last.
  rewrite rendered_set_combined by apply combined_text_nonempty.
  by rewrite consumed_set_combined_new.
Qed.

Lemma distinct_operands_stringify_run (h : store) (A B : ref) (bA bB : Builder.t)
    (c : string) :
  h !! A = Some bA -> h !! B = Some bB -> A <> B ->
  (this ← cssSelectorBuilder.combine A c B; stringify this) h =
    Some (Ret (rendered bA +:+ " " +:+ c +:+ " " +:+ rendered bB),
          <[B := consumed bB]> (<[A := consumed bA]> h) ++ [Builder.new]).
Proof.
  intros HA HB Hne. unfold mbind, store_bind, bindH.
  rewrite (facade_combine_run h A B bA bB c HA HB Hne).
  rewrite <- (length_insert h A (consumed bA)).
  rewrite <- (length_insert (<[A:=consumed bA]> h) B (consumed bB)).
  rewrite stringify_last.
  rewrite rendered_set_combined by apply combined_text_nonempty.
  by rewrite consumed_set_combined_new.
Qed.

(** X11.  [combine] with the same builder on both sides: the left side is
    what the builder renders, the right side is what it renders after that
    first [stringify], which is nothing unless the builder held both a
    combined text and parts; the builder ends as new. *)
Theorem combine_same_builder (h : store) (A : ref) (bA : Builder.t)
    (c : string) :
  h !! A = Some bA ->
  (this ← cssSelectorBuilder.combine A c A; stringify this) h =
    Some (Ret (rendered bA +:+ " " +:+ c +:+ " " +:+ rendered (consumed bA)),
          <[A := Builder.new]> h ++ [Builder.new]) /\
  (Builder.combined bA = "" \/ Builder.current bA = Selector.new ->
   rendered (consumed bA) = "").
Proof.
  intros HA. split; [by apply same_operand_stringify_run|].
  apply rendered_consumed.
Qed.

Lemma combine_same_builder_witness :
  (this ← cssSelectorBuilder.combine 0%nat "~" 0%nat; stringify this)
    [added KId "main" Builder.new]
  = Some (Ret "#main ~ ", [Builder.new; Builder.new]).
Proof.
  apply (combine_same_builder [added KId "main" Builder.new] 0%nat
           (added KId "main" Builder.new) "~").
  reflexivity.
Defined.

(** X12.  [combine] never raises and never renders the empty string: for
    any two operands, the same builder or not, whatever they hold and
    whatever the combinator, also all empty, the combined builder is a new
    object and renders a text that contains the two padding spaces. *)
Theorem combine_total (h : store) (A B : ref) (bA bB : Builder.t)
    (c : string) :
  h !! A = Some bA -> h !! B = Some bB ->
  exists (right : string) (h' : store),
    (this ← cssSelectorBuilder.combine A c B; stringify this) h =
      Some (Ret (rendered bA +:+ " " +:+ c +:+ " " +:+ right), h') /\
    rendered bA +:+ " " +:+ c +:+ " " +:+ right <> "" /\
    length h' = S (length h) /\
    h' !! length h = Some Builder.new.
Proof.
  intros HA HB. destruct (decide (A = B)) as [<-|Hne].
  - exists (rendered (consumed bA)), (<[A := Builder.new]> h ++ [Builder.new]).
    split; [by apply same_operand_stringify_run|].
    split; [apply combined_text_nonempty|].
    split; [rewrite length_app, length_insert; cbn; lia|].
    rewrite <- (length_insert h A Builder.new). by apply list_lookup_middle.
  - exists (rendered bB),
      (<[B := consumed bB]> (<[A := consumed bA]> h) ++ [Builder.new]).
    split; [by apply distinct_operands_stringify_run|].
    split; [apply combined_text_nonempty|].
    split; [rewrite length_app, !length_insert; cbn; lia|].
    rewrite <- (length_insert h A (consumed bA)).
    rewrite <- (length_insert (<[A:=consumed bA]> h) B (consumed bB)).
    by apply list_lookup_middle.
Qed.

Lemma combine_total_witness :
  exists (right : string) (h' : store),
    (this ← cssSelectorBuilder.combine 0%nat "" 1%nat; stringify this)
      [Builder.new; Builder.new] =
      Some (Ret (rendered Builder.new +:+ " " +:+ "" +:+ " " +:+ right), h') /\
    rendered Builder.new +:+ " " +:+ "" +:+ " " +:+ right <> "" /\
    length h' = S (length [Builder.new; Builder.new]) /\
    h' !! length [Builder.new; Builder.new] = Some Builder.new.
Proof.
  apply (combine_total [Builder.new; Builder.new] 0%nat 1%nat
           Builder.new Builder.new ""); reflexivity.
Defined.

Lemma lookup_last_of (g : store) (b : Builder.t) (n : nat) :
  n = length g -> (g ++ [b]) !! n = Some b.
Proof. intros ->. by apply list_lookup_middle. Qed.

(** X13.  Nested [combine] renders flat, and the nesting side does not
    matter: for three different builders, [combine(combine(A, c1, B), c2, C)]
    and [combine(A, c1, combine(B, c2, C))] both render
    [A c1 B c2 C] with single spaces, and both leave the three operands
    consumed and the two combined builders as new. *)
Theorem nested_combine_flat (h : store) (A B C : ref)
    (bA bB bC : Builder.t) (c1 c2 : string) :
  h !! A = Some bA -> h !! B = Some bB -> h !! C = Some bC ->
  A <> B -> A <> C -> B <> C ->
  (x ← cssSelectorBuilder.combine A c1 B;
   y ← cssSelectorBuilder.combine x c2 C;
   stringify y) h =
    Some (Ret (rendered bA +:+ " " +:+ c1 +:+ " " +:+ rendered bB +:+
               " " +:+ c2 +:+ " " +:+ rendered bC),
          <[C := consumed bC]>
            (<[B := consumed bB]> (<[A := consumed bA]> h)) ++
          [Builder.new; Builder.new]) /\
  (x ← cssSelectorBuilder.combine B c2 C;
   y ← cssSelectorBuilder.combine A c1 x;
   stringify y) h =
    Some (Ret (rendered bA +:+ " " +:+ c1 +:+ " " +:+ rendered bB +:+
               " " +:+ c2 +:+ " " +:+ rendered bC),
          <[C := consumed bC]>
            (<[B := consumed bB]> (<[A := consumed bA]> h)) ++
          [Builder.new; Builder.new]).
Proof.
  intros HA HB HC Hab Hac Hbc.
  pose proof (allocated_below _ _ _ HA) as HAl.
  pose proof (allocated_below _ _ _ HB) as HBl.
  pose proof (allocated_below _ _ _ HC) as HCl.
  pose proof (lookup_lt_Some _ _ _ HA) as HAlt.
  pose proof (lookup_lt_Some _ _ _ HB) as HBlt.
  pose proof (lookup_lt_Some _ _ _ HC) as HClt.
  split.
  - unfold mbind, store_bind. unfold bindH at 1.
    rewrite (facade_combine_run h A B bA bB c1 HA HB Hab).
    set (g := <[B := consumed bB]> (<[A := consumed bA]> h)).
    assert (Hg : length g = length h) by (subst g; by rewrite !length_insert).
    set (t1 := rendered bA +:+ " " +:+ c1 +:+ " " +:+ rendered bB).
    pose proof (distinct_operands_stringify_run (g ++ [Builder.set_combined t1 Builder.new])
                  (length h) C (Builder.set_combined t1 Builder.new) bC c2)
      as Hrun.
    unfold mbind, store_bind in Hrun. rewrite Hrun; clear Hrun.
    + rewrite rendered_set_combined by apply combined_text_nonempty.
      rewrite consumed_set_combined_new. subst t1.
      rewrite !append_assoc. do 2 f_equal.
      rewrite <- Hg, alloc_update_again.
      rewrite insert_app_l by lia. by rewrite <- app_assoc.
    + by apply lookup_last_of.
    + apply lookup_app_l_Some. subst g.
      by rewrite !list_lookup_insert_ne.
    + done.
  - unfold mbind, store_bind. unfold bindH at 1.
    rewrite (facade_combine_run h B C bB bC c2 HB HC Hbc).
    set (g := <[C := consumed bC]> (<[B := consumed bB]> h)).
    assert (Hg : length g = length h) by (subst g; by rewrite !length_insert).
    set (t2 := rendered bB +:+ " " +:+ c2 +:+ " " +:+ rendered bC).
    pose proof (distinct_operands_stringify_run (g ++ [Builder.set_combined t2 Builder.new])
                  A (length h) bA (Builder.set_combined t2 Builder.new) c1)
      as Hrun.
    unfold mbind, store_bind in Hrun. rewrite Hrun; clear Hrun.
    + rewrite rendered_set_combined by apply combined_text_nonempty.
      rewrite consumed_set_combined_new. subst t2. do 2 f_equal.
      rewrite insert_app_l by lia.
      rewrite <- Hg, <- (length_insert g A (consumed bA)), alloc_update_again.
      rewrite <- app_assoc. f_equal. subst g.
      rewrite (list_insert_insert_ne _ A C) by done.
      by rewrite (list_insert_insert_ne _ A B) by done.
    + apply lookup_app_l_Some. subst g.
      by rewrite !list_lookup_insert_ne.
    + by apply lookup_last_of.
    + done.
Qed.

Lemma nested_combine_flat_witness :
  (x ← cssSelectorBuilder.combine 0%nat "+" 1%nat;
   y ← cssSelectorBuilder.combine x "~" 2%nat;
   stringify y)
    [added KElement "a" Builder.new; added KElement "b" Builder.new;
     added KElement "c" Builder.new]
  = Some (Ret "a + b ~ c",
          [Builder.new; Builder.new; Builder.new; Builder.new; Builder.new]).
Proof.
  apply (nested_combine_flat
           [added KElement "a" Builder.new; added KElement "b" Builder.new;
            added KElement "c" Builder.new]
           0%nat 1%nat 2%nat (added KElement "a" Builder.new)
           (added KElement "b" Builder.new) (added KElement "c" Builder.new)
           "+" "~"); (reflexivity || discriminate).
Defined.

(** The method [combine] called on a builder that is neither operand. *)
Lemma method_combine_run (h : store) (T A B : ref) (bT bA bB : Builder.t)
    (c : string) :
  h !! T = Some bT -> h !! A = Some bA -> h !! B = Some bB ->
  T <> A -> T <> B -> A <> B ->
  combine T A c B h =
    Some (Ret T,
          <[T := Builder.set_combined
                   (rendered bA +:+ " " +:+ c +:+ " " +:+ rendered bB) bT]>
            (<[B := consumed bB]> (<[A := consumed bA]> h))).
Proof.
  intros HT HA HB Hta Htb Hab.
  unfold combine, mbind, store_bind, bindH, mret, store_ret, retH.
  rewrite (stringify_at A _ bA HA).
  rewrite (stringify_at B _ bB) by (by rewrite list_lookup_insert_ne).
  rewrite (invoke_at T _ _ bT) by (by rewrite !list_lookup_insert_ne).
  reflexivity.
Qed.

(** X14.  The method [combine] called on a builder that already holds parts
    assigns the combined text and keeps the parts: the next [stringify]
    returns the combined text, and the one after it returns the parts the
    builder held before the [combine]. *)
Theorem combine_keeps_own_parts (h : store) (T A B : ref)
    (bT bA bB : Builder.t) (c : string) :
  h !! T = Some bT -> h !! A = Some bA -> h !! B = Some bB ->
  T <> A -> T <> B -> A <> B ->
  Builder.combined bT = "" ->
  (r ← combine T A c B;
   s1 ← stringify r;
   s2 ← stringify r;
   mret (s1, s2)) h =
    Some (Ret (rendered bA +:+ " " +:+ c +:+ " " +:+ rendered bB,
               rendered bT),
          <[T := Builder.new]>
            (<[B := consumed bB]> (<[A := consumed bA]> h))).
Proof.
  intros HT HA HB Hta Htb Hab Hc.
  set (t := rendered bA +:+ " " +:+ c +:+ " " +:+ rendered bB).
  assert (Ht : Builder.combined (Builder.set_combined t bT) <> "")
    by apply combined_text_nonempty.
  destruct (stringify_keeps_accumulator _ Ht) as [Hcons Hrend].
  unfold mbind, store_bind, bindH.
  rewrite (method_combine_run h T A B bT bA bB c) by done. fold t.
  assert (HTlt : (T < length (<[B:=consumed bB]> (<[A:=consumed bA]> h)))%nat)
    by (rewrite !length_insert; by eapply lookup_lt_Some).
  rewrite (stringify_at T _ (Builder.set_combined t bT))
    by (by apply list_lookup_insert_eq).
  rewrite list_insert_insert_eq.
  rewrite (stringify_at T _ (consumed (Builder.set_combined t bT)))
    by (by apply list_lookup_insert_eq).
  rewrite list_insert_insert_eq, consumed_twice, Hrend.
  rewrite rendered_set_combined by apply combined_text_nonempty.
  unfold mret, store_ret, retH. do 3 f_equal.
  unfold rendered. rewrite stringify_cases, Hc. reflexivity.
Qed.

Lemma combine_keeps_own_parts_witness :
  (r ← combine 0%nat 1%nat "+" 2%nat;
   s1 ← stringify r;
   s2 ← stringify r;
   mret (s1, s2))
    [added KElement "div" Builder.new; added KElement "a" Builder.new;
     added KElement "b" Builder.new]
  = Some (Ret ("a + b", "div"), [Builder.new; Builder.new; Builder.new]).
Proof.
  apply (combine_keeps_own_parts
           [added KElement "div" Builder.new; added KElement "a" Builder.new;
            added KElement "b" Builder.new]
           0%nat 1%nat 2%nat (added KElement "div" Builder.new)
           (added KElement "a" Builder.new) (added KElement "b" Builder.new)
           "+"); (reflexivity || discriminate).
Defined.

Lemma consumed_fixed (b : Builder.t) (t : string) :
  t <> "" -> consumed (Builder.set_combined t (consumed b)) = consumed b.
Proof.
  intros Ht.
  destruct (stringify_keeps_accumulator (Builder.set_combined t (consumed b)))
    as [-> _]; [done|].
  unfold consumed. rewrite stringify_cases.
  by destruct (truthy (VStr (Builder.combined b))).
Qed.

(** X15.  The method [combine] called on its own left operand: the builder
    ends up holding the combined text of what it rendered and what the right
    operand rendered, [stringify] returns that text, and the builder is then
    as its first rendering left it. *)
Theorem combine_into_left_operand (h : store) (A B : ref)
    (bA bB : Builder.t) (c : string) :
  h !! A = Some bA -> h !! B = Some bB -> A <> B ->
  (r ← combine A A c B; stringify r) h =
    Some (Ret (rendered bA +:+ " " +:+ c +:+ " " +:+ rendered bB),
          <[B := consumed bB]> (<[A := consumed bA]> h)).
Proof.
  intros HA HB Hab.
  pose proof (lookup_lt_Some _ _ _ HA) as HAlt.
  unfold combine, mbind, store_bind, bindH, mret, store_ret, retH.
  rewrite (stringify_at A _ bA HA).
  rewrite (stringify_at B _ bB) by (by rewrite list_lookup_insert_ne).
  rewrite (invoke_at A _ _ (consumed bA))
    by (rewrite list_lookup_insert_ne by done; by eapply lookup_updated).
  cbn [fst snd Builder.modify].
  rewrite (stringify_at A _ (Builder.set_combined
             (rendered bA +:+ " " +:+ c +:+ " " +:+ rendered bB)
             (consumed bA)))
    by (apply list_lookup_insert_eq; by rewrite !length_insert).
  rewrite rendered_set_combined by apply combined_text_nonempty.
  rewrite consumed_fixed by apply combined_text_nonempty.
  do 2 f_equal. rewrite list_insert_insert_eq.
  rewrite (list_insert_insert_ne _ A B) by done.
  by rewrite list_insert_insert_eq.
Qed.

Lemma combine_into_left_operand_witness :
  (r ← combine 0%nat 0%nat ">" 1%nat; stringify r)
    [added KElement "ul" Builder.new; added KElement "li" Builder.new]
  = Some (Ret "ul > li", [Builder.new; Builder.new]).
Proof.
  apply (combine_into_left_operand
           [added KElement "ul" Builder.new; added KElement "li" Builder.new]
           0%nat 1%nat (added KElement "ul" Builder.new)
           (added KElement "li" Builder.new) ">");
    (reflexivity || discriminate).
Defined.

(** ** Accepted chains read back in writing order *)

Lemma values_below (cs : list part) :
  forall (o : Z) (k : Kind),
    nondecreasing o cs = true -> weight k < o -> values k cs = [].
Proof.
  induction cs as [|[k' v] cs IH]; intros o k Hnd Hk; [done|].
  cbn [nondecreasing] in Hnd. apply andb_true_iff in Hnd as [Hle Hnd].
  apply Z.leb_le in Hle. cbn [values].
  rewrite decide_False by (intros ->; lia).
  apply (IH (weight k')); [done | lia].
Qed.

Lemma group_cons (k k' : Kind) (v : string) (cs : list part) :
  group k ((k', v) :: cs)
  = if decide (k' = k) then canonical k v +:+ group k cs else group k cs.
Proof. unfold group. cbn [values]. by case_decide. Qed.

Lemma group_below (cs : list part) (o : Z) (k : Kind) :
  nondecreasing o cs = true -> weight k < o -> group k cs = "".
Proof. intros Hnd Hk. unfold group. by rewrite (values_below cs o k). Qed.

Lemma spec_text_in_order (cs : list part) :
  forall o : Z,
    nondecreasing o cs = true ->
    spec_text cs = concat_all (map (fun p : part => canonical p.1 p.2) cs).
Proof.
  induction cs as [|[k v] cs IH]; intros o Hnd; [done|].
  cbn [nondecreasing] in Hnd. apply andb_true_iff in Hnd as [_ Hnd].
  change (concat_all (map (fun p : part => canonical p.1 p.2) ((k, v) :: cs)))
    with (canonical k v +:+
          concat_all (map (fun p : part => canonical p.1 p.2) cs)).
  rewrite <- (IH _ Hnd). unfold spec_text. rewrite !group_cons.
  destruct k; repeat case_decide; try done;
    rewrite ?(group_below cs _ KElement Hnd), ?(group_below cs _ KId Hnd),
      ?(group_below cs _ KClass Hnd), ?(group_below cs _ KAttr Hnd),
      ?(group_below cs _ KPseudoClass Hnd) by (cbn; lia);
    by rewrite ?append_assoc.
Qed.

(** X16.  An accepted chain reads back in writing order: for a chain at the
    facade whose ranks never decrease, with each of element, id and
    pseudo-element at most once and non-empty id and pseudo-element values,
    [stringify] returns the canonical syntax of each part ([tag], [#id],
    [.class], [[attr]], [:pseudo], [::pseudo]) concatenated in the order of
    the calls. *)
Theorem build_in_call_order (h : store) (k : Kind) (v : string)
    (rest : list part) :
  nondecreasing (-1) ((k, v) :: rest) = true ->
  singletons_once ((k, v) :: rest) = true ->
  marked_nonempty ((k, v) :: rest) = true ->
  build (k, v) rest h =
    Some (Ret (concat_all
                 (map (fun p : part => canonical p.1 p.2) ((k, v) :: rest))),
          h ++ [Builder.new]).
Proof.
  intros Hnd Honce Hne. rewrite build_run.
  rewrite (addParts_ok ((k, v) :: rest) Builder.new Hnd).
  - rewrite stringify_cases. cbn [Builder.combined Builder.new truthy
      String.eqb negb fst snd Builder.current].
    rewrite (render_store_parts _ Honce Hne).
    by rewrite (spec_text_in_order _ _ Hnd).
  - by apply singletons_once_spec.
  - intros k' Hk' _. rewrite new_holds_nothing. by rewrite Hk'.
Qed.

Lemma build_in_call_order_witness :
  build (KId, "main") [(KClass, "container"); (KClass, "editable")] []
  = Some (Ret "#main.container.editable", [Builder.new]).
Proof.
  exact (build_in_call_order [] KId "main"
           [(KClass, "container"); (KClass, "editable")]
           eq_refl eq_refl eq_refl).
Defined.
